(** * g80-layouts: the layout cache, the selection window and the deduplication
    loop of [main.go], embedded as executable definitions.

    The program is sequential Go code working on two package-level variables
    ([cache] and [cachePath]), the file system and the network.  It is modelled
    by explicit state passing: a computation takes the process state and gives
    back an outcome (normal return, panic, or exit) with the new state.  The
    behaviour of the libraries the program calls (encoding/json, net/http,
    net/url, xdg, time formatting) is collected in a record [World]; nothing is
    assumed about it beyond what a theorem states as a hypothesis.

    Calls to [log.Print] and [log.Printf] are left out: they write to the debug
    log and influence neither the control flow nor the data. *)

From Stdlib Require Import ZArith.
From stdpp Require Import gmap strings list fin_maps.

#[local] Set Warnings "-clear-no-such-hyp,-register-all".

Local Open Scope Z_scope.

(** ** Go values *)

(** A [[]byte]. *)
Abbreviation bytes := (list Byte.byte).

(** An [error] value.  The program inspects errors only through
    [errors.Is(err, fs.ErrNotExist)]. *)
Inductive error : Type :=
  | ErrNotExist
  | ErrOther (msg : string).

Definition errors_Is_ErrNotExist (e : error) : bool :=
  match e with
  | ErrNotExist => true
  | ErrOther _ => false
  end.

(** The run-time panics of the Go language itself that the program can meet. *)
Definition nilDereference : error :=
  ErrOther "runtime error: invalid memory address or nil pointer dereference".
Definition sliceOutOfRange : error :=
  ErrOther "runtime error: slice bounds out of range".

(** Go's [int] is 64 bits wide here; addition wraps around. *)
Definition wrap64 (z : Z) : Z := (z + 2 ^ 63) mod 2 ^ 64 - 2 ^ 63.
Definition int_add (a b : Z) : Z := wrap64 (a + b).

(** A slice: the elements below its length, and the elements of the backing
    array between its length and its capacity. *)
Record slice (A : Type) : Type := mkSlice {
  elems : list A;
  spare : list A
}.
Arguments mkSlice {A} _ _.
Arguments elems {A} _.
Arguments spare {A} _.

Definition len {A} (s : slice A) : Z := Z.of_nat (length (elems s)).
Definition cap {A} (s : slice A) : Z :=
  Z.of_nat (length (elems s) + length (spare s)).

(** The slice expression [s[low:high]], read as the elements a [range] over it
    visits.  The language checks [0 <= low <= high <= cap(s)] and panics
    otherwise; the upper bound of a slice is its capacity, not its length. *)
Definition slice_expr {A} (s : slice A) (low high : Z) : option (list A) :=
  if bool_decide (0 <= low ∧ low <= high ∧ high <= cap s)
  then Some (take (Z.to_nat (high - low))
                  (drop (Z.to_nat low) (elems s ++ spare s)))
  else None.

(** A value of type [any], as encoding/json produces it. *)
Inductive any : Type :=
  | anyNil
  | anyBool (b : bool)
  | anyFloat64 (bits : Z)
  | anyString (s : string)
  | anySlice (l : list any)
  | anyMap (m : list (string * any)).

(** ** The layout record *)

Record LayoutMeta : Type := mkLayoutMeta {
  UUID : string;
  Date : Z;
  Creator : string;
  ParentUUID : string;
  FirmwareAPIVersion : string;
  Title : string;
  Notes : string;
  Tags : list string;
  Unlisted : bool;
  Deleted : bool;
  Compiled : bool;
  Searchable : bool
}.

Record Layout : Type := mkLayout {
  Metadata : LayoutMeta;
  Config : any;
  CompilerInput : any
}.

(** The composite literal [Layout{}]: every field at its zero value. *)
Definition Layout_zero : Layout :=
  {| Metadata := {| UUID := ""; Date := 0; Creator := ""; ParentUUID := "";
                    FirmwareAPIVersion := ""; Title := ""; Notes := "";
                    Tags := []; Unlisted := false; Deleted := false;
                    Compiled := false; Searchable := false |};
     Config := anyNil;
     CompilerInput := anyNil |}.

(** A record with the given identifier, title and creator, its other fields
    zero. *)
Definition Layout_of (uuid title creator : string) : Layout :=
  {| Metadata := {| UUID := uuid; Date := 0; Creator := creator;
                    ParentUUID := ""; FirmwareAPIVersion := "";
                    Title := title; Notes := ""; Tags := [];
                    Unlisted := false; Deleted := false; Compiled := false;
                    Searchable := false |};
     Config := anyNil;
     CompilerInput := anyNil |}.
Definition Layout_by (title creator : string) : Layout :=
  Layout_of "" title creator.

(** A value of type [map[string]Layout]: the nil map, or a table.  Reading a
    nil map finds nothing; assigning to an entry of a nil map is a run-time
    panic. *)
Inductive GoMap : Type :=
  | NilMap
  | Map (m : gmap string Layout).

Definition entries (c : GoMap) : gmap string Layout :=
  match c with
  | NilMap => ∅
  | Map m => m
  end.

Definition nilMapAssignment : error :=
  ErrOther "assignment to entry in nil map".

(** [fmt.Sprintf("%s-%s", l.Metadata.Title, l.Metadata.Creator)] *)
Definition SemanticHash (l : Layout) : string :=
  Title (Metadata l) +:+ "-" +:+ Creator (Metadata l).

(** ** Constants *)

Definition baseURL : string := "https://my.glove80.com/api/layouts/v1/".
Definition cacheFileName : string := "g80-layouts-cache.json".
Definition cachePerms : Z := 420. (* 0644 *)

(** ** The libraries and the outside world *)

Record URL : Type := mkURL {
  Origin : string;   (* scheme and host, which the program never touches *)
  Path : string;
  RawQuery : string
}.

(** What [http.Get] hands back on success; [Body] is what [io.ReadAll] makes of
    the response body. *)
Record Response : Type := mkResponse {
  Body : bytes * option error
}.

(** How a failing [ioutil.WriteFile] leaves the file: not opened at all, or
    truncated and holding the first [n] bytes of the data. *)
Inductive WriteFault : Type :=
  | OpenFailed (e : error)
  | WriteFailed (e : error) (written : nat).

Record World : Type := mkWorld {
  (* github.com/adrg/xdg *)
  xdg_CacheFile : string → string + error;
  (* net/url *)
  url_Parse : string → URL + error;
  url_JoinPath : string → list string → string + error;
  URL_String : URL → string;
  Values_Encode : list (string * string) → string;
  (* net/http: the answer, a response (nil or not) and an error (nil or not),
     may depend on the requests made so far *)
  http_Get : list string → string → option Response * option error;
  (* encoding/json: Unmarshal updates the value it is given (for a map it may
     also set it to nil) and may report an error; Marshal gives the bytes or
     an error *)
  json_Unmarshal_cache : bytes → GoMap → GoMap * option error;
  json_Marshal_cache : GoMap → bytes + error;
  json_Unmarshal_Layout : bytes → Layout → Layout * option error;
  json_Unmarshal_uids : bytes → slice string → slice string * option error;
  (* the file system's faults *)
  read_fault : string → option error;
  write_fault : string → option WriteFault;
  (* time.Time.Format("1/2/06"), of an instant in seconds since the epoch *)
  Time_Format : Z → string
}.

(** ** The process state and the monad of Go computations *)

Record Proc : Type := mkProc {
  cacheMap : GoMap;                    (* var cache *)
  cachePath : string;                  (* var cachePath *)
  files : gmap string bytes;           (* the file system *)
  requests : list string               (* the URLs requested so far *)
}.

(** The entries of [var cache]: what [cache[uid]] reads. *)
Definition cache (σ : Proc) : gmap string Layout := entries (cacheMap σ).
Arguments cache : simpl never.

(** The state of a fresh process: [cache = make(map[string]Layout)] and
    [cachePath = ""]. *)
Definition Proc_init (fs : gmap string bytes) (reqs : list string) : Proc :=
  {| cacheMap := Map ∅; cachePath := ""; files := fs; requests := reqs |}.

Definition set_cacheMap (c : GoMap) (σ : Proc) : Proc :=
  {| cacheMap := c; cachePath := cachePath σ; files := files σ;
     requests := requests σ |}.
(** [var cache] set to a table with the given entries. *)
Definition set_cache (c : gmap string Layout) (σ : Proc) : Proc :=
  set_cacheMap (Map c) σ.
Definition set_cachePath (p : string) (σ : Proc) : Proc :=
  {| cacheMap := cacheMap σ; cachePath := p; files := files σ;
     requests := requests σ |}.
Definition set_files (fs : gmap string bytes) (σ : Proc) : Proc :=
  {| cacheMap := cacheMap σ; cachePath := cachePath σ; files := fs;
     requests := requests σ |}.
Definition add_request (u : string) (σ : Proc) : Proc :=
  {| cacheMap := cacheMap σ; cachePath := cachePath σ; files := files σ;
     requests := requests σ ++ [u] |}.

Inductive Outcome (A : Type) : Type :=
  | Return (a : A)
  | Panicked (e : error)
  | Exited (code : Z).
Arguments Return {A} _.
Arguments Panicked {A} _.
Arguments Exited {A} _.

Definition Go (A : Type) : Type := Proc → Outcome A * Proc.

Definition ret {A} (a : A) : Go A := fun σ => (Return a, σ).
Definition panic {A} (e : error) : Go A := fun σ => (Panicked e, σ).
Definition log_Fatalf {A} : Go A := fun σ => (Exited 1, σ).
Definition bind {A B} (m : Go A) (k : A → Go B) : Go B :=
  fun σ =>
    match m σ with
    | (Return a, σ') => k a σ'
    | (Panicked e, σ') => (Panicked e, σ')
    | (Exited c, σ') => (Exited c, σ')
    end.
Definition get : Go Proc := fun σ => (Return σ, σ).
Definition modify (f : Proc → Proc) : Go unit := fun σ => (Return tt, f σ).

(** [defer d(); body]: [d] runs when [body] returns and also when it panics,
    but not when the process exits.  A panic of [d] replaces the outcome. *)
Definition defer {A} (d : Go unit) (body : Go A) : Go A :=
  fun σ =>
    match body σ with
    | (Exited c, σ') => (Exited c, σ')
    | (r, σ') =>
        match d σ' with
        | (Return _, σ'') => (r, σ'')
        | (Panicked e, σ'') => (Panicked e, σ'')
        | (Exited c, σ'') => (Exited c, σ'')
        end
    end.

Declare Scope go_scope.
Delimit Scope go_scope with go.
Notation "'let*' x ':=' m 'in' k" := (bind m (fun x => k))
  (at level 10, x name, m at level 100, k at level 200) : go_scope.
Notation "'do' m 'in' k" := (bind m (fun _ => k))
  (at level 10, m at level 100, k at level 200) : go_scope.

(** [v, err := f(); if err != nil { panic(err) }] *)
Definition must {A} (r : A + error) : Go A :=
  match r with
  | inl a => ret a
  | inr e => panic e
  end.

Local Open Scope go_scope.

(** ** File system and network calls *)

(** [ioutil.ReadFile(name)] *)
Definition ioutil_ReadFile (W : World) (name : string)
  : Go (bytes * option error) :=
  fun σ =>
    match read_fault W name with
    | Some e => (Return ([], Some e), σ)
    | None =>
        match files σ !! name with
        | Some data => (Return (data, None), σ)
        | None => (Return ([], Some ErrNotExist), σ)
        end
    end.

(** [ioutil.WriteFile(name, data, perm)] *)
Definition ioutil_WriteFile (W : World) (name : string) (data : bytes)
    (perm : Z) : Go (option error) :=
  fun σ =>
    match write_fault W name with
    | None => (Return None, set_files (<[name := data]> (files σ)) σ)
    | Some (OpenFailed e) => (Return (Some e), σ)
    | Some (WriteFailed e n) =>
        (Return (Some e), set_files (<[name := take n data]> (files σ)) σ)
    end.

(** [http.Get(url)]: the request is made, whatever its result. *)
Definition http_Get_ (W : World) (url : string)
  : Go (option Response * option error) :=
  fun σ => (Return (http_Get W (requests σ) url), add_request url σ).

(** [resp.Body], of a response that may be nil. *)
Definition Body_of (resp : option Response) : Go (bytes * option error) :=
  match resp with
  | Some r => ret (Body r)
  | None => panic nilDereference
  end.

(** [b, err := io.ReadAll(resp.Body); if err != nil { panic(err) }] *)
Definition io_ReadAll_must (resp : option Response) : Go bytes :=
  let* body := Body_of resp in
  match body with
  | (b, None) => ret b
  | (_, Some e) => panic e
  end.

(** ** The cache *)

Definition readCache (W : World) : Go unit :=
  let* σ := get in
  let* r := ioutil_ReadFile W (cachePath σ) in
  let '(cacheBytes, err) := r in
  do match err with
     | Some e => if negb (errors_Is_ErrNotExist e) then panic e else ret tt
     | None => ret tt
     end in
  (* json.Unmarshal(cacheBytes, &cache): the error is dropped *)
  modify
    (fun σ =>
       set_cacheMap (json_Unmarshal_cache W cacheBytes (cacheMap σ)).1 σ).

Definition writeCache (W : World) : Go unit :=
  let* σ := get in
  match json_Marshal_cache W (cacheMap σ) with
  | inr e => panic e
  | inl cacheBytes =>
      let* err := ioutil_WriteFile W (cachePath σ) cacheBytes cachePerms in
      match err with
      | Some _ => ret tt   (* logged, then return *)
      | None => ret tt
      end
  end.

Definition getLayout (W : World) (uid : string) : Go Layout :=
  let* σ := get in
  match cache σ !! uid with
  | Some l => ret l
  | None =>
      let* layoutURL := must (url_Parse W baseURL) in
      let* path := must (url_JoinPath W (Path layoutURL) [uid; "meta"]) in
      let layoutURL :=
        {| Origin := Origin layoutURL; Path := path;
           RawQuery := RawQuery layoutURL |} in
      let* r := http_Get_ W (URL_String W layoutURL) in
      let '(resp, err) := r in
      do match err with
         | Some e => panic e
         | None => ret tt
         end in
      let* layoutBytes := io_ReadAll_must resp in
      (* result := Layout{}; json.Unmarshal(layoutBytes, &result): the error
         is dropped *)
      let result := (json_Unmarshal_Layout W layoutBytes Layout_zero).1 in
      (* cache[uid] = result *)
      do (let* σ := get in
          match cacheMap σ with
          | NilMap => panic nilMapAssignment
          | Map m => modify (set_cache (<[uid := result]> m))
          end) in
      ret result
  end.

(** ** The table and the main loop *)

(** [time.Unix(int64(l.Metadata.Date), 0)]: an instant, as seconds since the
    epoch. *)
Definition Time (l : Layout) : Z := Date (Metadata l).

Definition AsRow (W : World) (l : Layout) : list string :=
  let date := Time_Format W (Time l) in
  [date; Title (Metadata l); Notes (Metadata l); Creator (Metadata l)].

Record Table : Type := mkTable {
  Header : list string;
  Rows : list (list string)
}.

(** The body of the loop after [layout := getLayout(uid)], on the two loop
    variables [seenLayouts] and [rows].  [row] is what is appended for an
    emitted layout: [layout.AsRow()] in [main]. *)
Definition visit {R : Type} (row : Layout → R) (redupe : bool)
    (layout : Layout) (acc : gset string * list R) : gset string * list R :=
  let '(seenLayouts, rows) := acc in
  if redupe then (seenLayouts, rows ++ [row layout])
  else
    let hash := SemanticHash layout in
    if bool_decide (hash ∈ seenLayouts) then (seenLayouts, rows)
    else ({[hash]} ∪ seenLayouts, rows ++ [row layout]).

(** [for _, uid := range window { layout := getLayout(uid); ... }] *)
Fixpoint loop (W : World) (redupe : bool) (window : list string)
    (acc : gset string * list (list string))
  : Go (gset string * list (list string)) :=
  match window with
  | [] => ret acc
  | uid :: rest =>
      let* layout := getLayout W uid in
      loop W redupe rest (visit (AsRow W) redupe layout acc)
  end.

(** The selection window: the identifiers the loop of [main] ranges over,
    [uids[offset : offset+limit]]; [None] is the run-time panic. *)
Definition window (uids : slice string) (offset limit : Z)
  : option (list string) :=
  slice_expr uids offset (int_add offset limit).

(** [main], after [flag.Parse()]: [args] are the positional arguments and
    [debug], [redupe], [limit], [offset] the parsed flags.  The value returned
    is the table handed to the table writer. *)
Definition main (W : World) (args : list string) (debug redupe : bool)
    (limit offset : Z) : Go Table :=
  let* p := must (xdg_CacheFile W cacheFileName) in
  do modify (set_cachePath p) in
  if bool_decide (1 < length args)%nat then log_Fatalf
  else
    do readCache W in
    defer (writeCache W)
      (let* searchURL := must (url_Parse W baseURL) in
       let searchURL :=
         match args with
         | [tags] =>
             {| Origin := Origin searchURL; Path := Path searchURL;
                RawQuery := Values_Encode W [("tags", tags)] |}
         | _ => searchURL
         end in
       let* r := http_Get_ W (URL_String W searchURL) in
       let '(resp, _) := r in   (* this err is overwritten unchecked *)
       let* uidBytes := io_ReadAll_must resp in
       let '(uids, err) := json_Unmarshal_uids W uidBytes (mkSlice [] []) in
       match err with
       | Some e => panic e
       | None =>
           match window uids offset limit with
           | None => panic sliceOutOfRange
           | Some selected =>
               let* acc := loop W redupe selected (∅, []) in
               ret {| Header := ["Date"; "Title"; "Notes"; "Author"];
                      Rows := acc.2 |}
           end
       end).

(** ** The Deduplicator and the resolver on lists *)

(** The loop of [main] run on the records that [getLayout] returned, from
    given loop variables, emitting each surviving record itself in place of
    its row. *)
Definition run (redupe : bool) (acc : gset string * list Layout)
    (records : list Layout) : gset string * list Layout :=
  foldl (fun acc layout => visit id redupe layout acc) acc records.

(** The Deduplicator: that loop from its initial variables,
    [seenLayouts := make(map[string]struct{})] and [var rows]. *)
Definition Filter (records : list Layout) (redupe : bool) : list Layout :=
  (run redupe (∅, []) records).2.

(** The resolver run over a list of identifiers, in order. *)
Fixpoint resolveAll (W : World) (uids : list string) : Go (list Layout) :=
  match uids with
  | [] => ret []
  | uid :: rest =>
      let* layout := getLayout W uid in
      let* layouts := resolveAll W rest in
      ret (layout :: layouts)
  end.

(** The URL [getLayout] requests, from the parsed base URL and the joined
    path. *)
Definition layoutURL_of (W : World) (u : URL) (path : string) : string :=
  URL_String W {| Origin := Origin u; Path := path; RawQuery := RawQuery u |}.

(** ** Sample worlds *)

(** Worlds to run the program in: a server that answers by the URL alone, JSON
    decoders given as partial functions (a body they do not accept is reported
    as an error and leaves the target as it was; the cache file holding
    [null] sets the map to nil, and the nil map is written as [null]), and a
    file system without faults. *)
Definition sample_url_Parse (s : string) : URL + error :=
  if String.eqb s baseURL
  then inl {| Origin := "https://my.glove80.com"; Path := "/api/layouts/v1/";
              RawQuery := "" |}
  else inr (ErrOther "parse error").

Definition sample_URL_String (u : URL) : string :=
  Origin u +:+ Path u
  +:+ (if String.eqb (RawQuery u) "" then "" else "?" +:+ RawQuery u).

Definition sample_JoinPath (base : string) (elem : list string)
  : string + error :=
  inl (base +:+ String.concat "/" elem).

Definition sample_Encode (q : list (string * string)) : string :=
  String.concat "&" ((fun kv => kv.1 +:+ "=" +:+ kv.2) <$> q).

Definition syntaxError : error := ErrOther "invalid character".

Definition text (s : string) : bytes := String.list_byte_of_string s.
Definition is_text (s : string) (b : bytes) : bool :=
  String.eqb (String.string_of_list_byte b) s.

Definition World_sample
    (server : string → Response + error)
    (decode_Layout : bytes → option Layout)
    (decode_uids : bytes → option (slice string))
    (decode_cache : bytes → option (gmap string Layout))
    (encode_cache : gmap string Layout → bytes + error) : World :=
  {| xdg_CacheFile := fun name => inl ("/home/u/.cache/" +:+ name);
     url_Parse := sample_url_Parse;
     url_JoinPath := sample_JoinPath;
     URL_String := sample_URL_String;
     Values_Encode := sample_Encode;
     http_Get := fun _ url =>
       match server url with
       | inl resp => (Some resp, None)
       | inr e => (None, Some e)
       end;
     json_Unmarshal_cache := fun b c =>
       if is_text "null" b then (NilMap, None)
       else
         match decode_cache b with
         | Some m => (Map (m ∪ entries c), None)
         | None => (c, Some syntaxError)
         end;
     json_Marshal_cache := fun c =>
       match c with
       | NilMap => inl (text "null")
       | Map m => encode_cache m
       end;
     json_Unmarshal_Layout := fun b l =>
       match decode_Layout b with
       | Some l' => (l', None)
       | None => (l, Some syntaxError)
       end;
     json_Unmarshal_uids := fun b s =>
       match decode_uids b with
       | Some s' => (s', None)
       | None => (s, Some syntaxError)
       end;
     read_fault := fun _ => None;
     write_fault := fun _ => None;
     Time_Format := fun _ => "1/1/70" |}.

Definition OK (body : string) : Response + error :=
  inl {| Body := (text body, None) |}.

(** A server with three layouts, the second a republication of the first. *)
Definition sample_server (url : string) : Response + error :=
  if String.eqb url "https://my.glove80.com/api/layouts/v1/"
  then OK "[id1,id2,id3]"
  else if String.eqb url "https://my.glove80.com/api/layouts/v1/id1/meta"
  then OK "layout 1"
  else if String.eqb url "https://my.glove80.com/api/layouts/v1/id2/meta"
  then OK "layout 2"
  else if String.eqb url "https://my.glove80.com/api/layouts/v1/id3/meta"
  then OK "layout 3"
  else OK "<html>404 Not Found</html>".

Definition decode_Layout_sample (b : bytes) : option Layout :=
  if is_text "layout 1" b then Some (Layout_of "id1" "Foo" "Alice")
  else if is_text "layout 2" b then Some (Layout_of "id2" "Foo" "Alice")
  else if is_text "layout 3" b then Some (Layout_of "id3" "Bar" "Bob")
  else None.

(** Three identifiers in a backing array of four, as the decoder's growing of
    the slice leaves it. *)
Definition uids_sample : slice string :=
  mkSlice ["id1"; "id2"; "id3"] [""].

Definition decode_uids_sample (b : bytes) : option (slice string) :=
  if is_text "[id1,id2,id3]" b then Some uids_sample else None.

(** A codec for the cache file that knows the records of the sample server:
    it writes the identifiers of a cache whose records are the server's,
    refuses any other cache, and reads back the server's records for the
    identifiers written. *)
Definition cache_sample : gmap string Layout :=
  {[ "id1" := Layout_of "id1" "Foo" "Alice" ]}.

Definition is_Layout_of (uuid title creator : string) (l : Layout) : bool :=
  String.eqb (UUID (Metadata l)) uuid
  && (Date (Metadata l) =? 0)
  && String.eqb (Creator (Metadata l)) creator
  && String.eqb (ParentUUID (Metadata l)) ""
  && String.eqb (FirmwareAPIVersion (Metadata l)) ""
  && String.eqb (Title (Metadata l)) title
  && String.eqb (Notes (Metadata l)) ""
  && match Tags (Metadata l) with [] => true | _ => false end
  && negb (Unlisted (Metadata l)) && negb (Deleted (Metadata l))
  && negb (Compiled (Metadata l)) && negb (Searchable (Metadata l))
  && match Config l with anyNil => true | _ => false end
  && match CompilerInput l with anyNil => true | _ => false end.

Definition is_server_record (entry : string * Layout) : bool :=
  if String.eqb entry.1 "id1" then is_Layout_of "id1" "Foo" "Alice" entry.2
  else if String.eqb entry.1 "id2" then is_Layout_of "id2" "Foo" "Alice" entry.2
  else if String.eqb entry.1 "id3" then is_Layout_of "id3" "Bar" "Bob" entry.2
  else false.

Definition cache_text (c : gmap string Layout) : string :=
  "{" +:+ String.concat "," (map_to_list c).*1 +:+ "}".

Definition encode_cache_sample (c : gmap string Layout) : bytes + error :=
  if forallb is_server_record (map_to_list c) then inl (text (cache_text c))
  else inr (ErrOther "json: unsupported value").

Definition server_caches : list (gmap string Layout) :=
  list_to_map
  <$> [ [];
        [("id1", Layout_of "id1" "Foo" "Alice")];
        [("id2", Layout_of "id2" "Foo" "Alice")];
        [("id3", Layout_of "id3" "Bar" "Bob")];
        [("id1", Layout_of "id1" "Foo" "Alice");
         ("id2", Layout_of "id2" "Foo" "Alice")];
        [("id1", Layout_of "id1" "Foo" "Alice");
         ("id3", Layout_of "id3" "Bar" "Bob")];
        [("id2", Layout_of "id2" "Foo" "Alice");
         ("id3", Layout_of "id3" "Bar" "Bob")];
        [("id1", Layout_of "id1" "Foo" "Alice");
         ("id2", Layout_of "id2" "Foo" "Alice");
         ("id3", Layout_of "id3" "Bar" "Bob")] ].

Definition decode_cache_sample (b : bytes) : option (gmap string Layout) :=
  List.find (fun c => is_text (cache_text c) b) server_caches.

Definition World_glove80 : World :=
  World_sample sample_server decode_Layout_sample decode_uids_sample
    decode_cache_sample encode_cache_sample.

Definition cachePath_sample : string :=
  "/home/u/.cache/g80-layouts-cache.json".

(** A process that has set [cachePath] and holds [c], on the file system
    [fs]. *)
Definition Proc_sample (c : gmap string Layout) (fs : gmap string bytes)
  : Proc :=
  {| cacheMap := Map c; cachePath := cachePath_sample; files := fs;
     requests := [] |}.

(** ** Auxiliary definitions *)

(** The hyphen (code 45), the separator [SemanticHash] puts between title and
    creator, and whether a string holds one. *)
Definition hyphen : Ascii.ascii := Ascii.ascii_of_nat 45.

Fixpoint has_hyphen (s : string) : bool :=
  match s with
  | EmptyString => false
  | String c s' => if Ascii.eqb c hyphen then true else has_hyphen s'
  end.

(** The search of [main]: from [url.Parse(baseURL)] to the decoded list of
    identifiers. *)
Definition search (W : World) (args : list string) : Go (slice string) :=
  let* searchURL := must (url_Parse W baseURL) in
  let searchURL :=
    match args with
    | [tags] =>
        {| Origin := Origin searchURL; Path := Path searchURL;
           RawQuery := Values_Encode W [("tags", tags)] |}
    | _ => searchURL
    end in
  let* r := http_Get_ W (URL_String W searchURL) in
  let '(resp, _) := r in
  let* uidBytes := io_ReadAll_must resp in
  let '(uids, err) := json_Unmarshal_uids W uidBytes (mkSlice [] []) in
  match err with
  | Some e => panic e
  | None => ret uids
  end.

(** What [main] does under [defer writeCache()]: the search, the selection
    window, the loop and the table. *)
Definition shown (W : World) (args : list string) (redupe : bool)
    (limit offset : Z) : Go Table :=
  let* uids := search W args in
  match window uids offset limit with
  | None => panic sliceOutOfRange
  | Some selected =>
      let* acc := loop W redupe selected (∅, []) in
      ret {| Header := ["Date"; "Title"; "Notes"; "Author"]; Rows := acc.2 |}
  end.

(** The URL of the search, when the base URL parses. *)
Definition searchURL_of (W : World) (args : list string) (u : URL) : string :=
  URL_String W
    match args with
    | [tags] =>
        {| Origin := Origin u; Path := Path u;
           RawQuery := Values_Encode W [("tags", tags)] |}
    | _ => u
    end.

(** A world in which no request gets through. *)
Definition World_offline : World :=
  World_sample (fun _ => inr (ErrOther "dial tcp: connection refused"))
    decode_Layout_sample decode_uids_sample decode_cache_sample
    encode_cache_sample.

(** A server that loses the connection on the third layout. *)
Definition flaky_server (url : string) : Response + error :=
  if String.eqb url "https://my.glove80.com/api/layouts/v1/id3/meta"
  then inr (ErrOther "read tcp: connection reset by peer")
  else sample_server url.

Definition World_flaky : World :=
  World_sample flaky_server decode_Layout_sample decode_uids_sample
    decode_cache_sample encode_cache_sample.

(** ** The resolver before the cache was added

    [getLayout] as the earlier revisions of the program have it
    ([src/unnamed/part_000], [src/unnamed/part_001]): every call requests the
    layout. *)
Module Uncached.

Definition getLayout (W : World) (uid : string) : Go Layout :=
  let* layoutURL := must (url_Parse W baseURL) in
  let* path := must (url_JoinPath W (Path layoutURL) [uid; "meta"]) in
  let layoutURL :=
    {| Origin := Origin layoutURL; Path := path;
       RawQuery := RawQuery layoutURL |} in
  let* r := http_Get_ W (URL_String W layoutURL) in
  let '(resp, err) := r in
  do match err with
     | Some e => panic e
     | None => ret tt
     end in
  let* layoutBytes := io_ReadAll_must resp in
  let result := (json_Unmarshal_Layout W layoutBytes Layout_zero).1 in
  ret result.

End Uncached.

(** ** Further sample worlds *)

(** A world with another decoder for layout records. *)
Definition World_with_Layout_decoder (W : World)
    (decode : bytes → Layout → Layout * option error) : World :=
  {| xdg_CacheFile := xdg_CacheFile W;
     url_Parse := url_Parse W;
     url_JoinPath := url_JoinPath W;
     URL_String := URL_String W;
     Values_Encode := Values_Encode W;
     http_Get := http_Get W;
     json_Unmarshal_cache := json_Unmarshal_cache W;
     json_Marshal_cache := json_Marshal_cache W;
     json_Unmarshal_Layout := decode;
     json_Unmarshal_uids := json_Unmarshal_uids W;
     read_fault := read_fault W;
     write_fault := write_fault W;
     Time_Format := Time_Format W |}.


(** The record [l] with its title set. *)
Definition with_Title (title : string) (l : Layout) : Layout :=
  {| Metadata := {| UUID := UUID (Metadata l); Date := Date (Metadata l);
                    Creator := Creator (Metadata l);
                    ParentUUID := ParentUUID (Metadata l);
                    FirmwareAPIVersion := FirmwareAPIVersion (Metadata l);
                    Title := title; Notes := Notes (Metadata l);
                    Tags := Tags (Metadata l);
                    Unlisted := Unlisted (Metadata l);
                    Deleted := Deleted (Metadata l);
                    Compiled := Compiled (Metadata l);
                    Searchable := Searchable (Metadata l) |};
     Config := Config l;
     CompilerInput := CompilerInput l |}.

(** A server whose layout documents are JSON of the wrong shape for a layout
    record (the date is a string), and a decoder that, as encoding/json does
    on a value of the wrong type, skips that field, fills the others and
    reports the error. *)
Definition wrong_shape_body : string := "{layout_meta:{title:Foo,date:soon}}".

Definition typeError : error :=
  ErrOther "json: cannot unmarshal string into Go struct field of type int64".

Definition World_wrong_shape : World :=
  World_with_Layout_decoder
    (World_sample (fun _ => OK wrong_shape_body) decode_Layout_sample
       decode_uids_sample decode_cache_sample encode_cache_sample)
    (fun b l =>
       if is_text wrong_shape_body b then (with_Title "Foo" l, Some typeError)
       else (l, Some syntaxError)).


(** A process whose cache map is nil, as after a cache file holding
    [null]. *)
Definition Proc_nil (fs : gmap string bytes) : Proc :=
  {| cacheMap := NilMap; cachePath := cachePath_sample; files := fs;
     requests := [] |}.

(** The URL [getLayout] requests for an identifier, when it can be built. *)
Definition layoutURL (W : World) (uid : string) : option string :=
  match url_Parse W baseURL with
  | inl u =>
      match url_JoinPath W (Path u) [uid; "meta"] with
      | inl path => Some (layoutURL_of W u path)
      | inr _ => None
      end
  | inr _ => None
  end.

(** The identifiers of a list that are not cached, each at its first
    occurrence. *)
Fixpoint to_fetch (cached : gset string) (uids : list string) : list string :=
  match uids with
  | [] => []
  | uid :: rest =>
      if bool_decide (uid ∈ cached) then to_fetch cached rest
      else uid :: to_fetch ({[uid]} ∪ cached) rest
  end.




(** * Properties *)

(** ** The entries of the cache across the state updates *)

Lemma cache_set_cache c σ : cache (set_cache c σ) = c.
Proof. reflexivity. Qed.
Lemma cache_add_request u σ : cache (add_request u σ) = cache σ.
Proof. reflexivity. Qed.
Lemma cache_set_files fs σ : cache (set_files fs σ) = cache σ.
Proof. reflexivity. Qed.
Lemma cache_set_cachePath p σ : cache (set_cachePath p σ) = cache σ.
Proof. reflexivity. Qed.
Lemma cache_Map σ m : cacheMap σ = Map m → cache σ = m.
Proof. unfold cache. by intros ->. Qed.
Lemma cache_NilMap σ : cacheMap σ = NilMap → cache σ = ∅.
Proof. unfold cache. by intros ->. Qed.

Ltac simpl_cache :=
  repeat first
    [ rewrite cache_set_cache | rewrite cache_add_request
    | rewrite cache_set_files | rewrite cache_set_cachePath ].
Ltac simpl_cache_in H :=
  repeat first
    [ rewrite cache_set_cache in H | rewrite cache_add_request in H
    | rewrite cache_set_files in H | rewrite cache_set_cachePath in H ].

(** ** The Deduplicator *)

Section Deduplicator.

Implicit Types (records new : list Layout) (seen : gset string).

Lemma Filter_run records redupe : Filter records redupe = (run redupe (∅, []) records).2.
Proof. reflexivity. Qed.

Lemma run_app redupe acc records1 records2 :
  run redupe acc (records1 ++ records2)
  = run redupe (run redupe acc records1) records2.
Proof. unfold run. apply foldl_app. Qed.

(** With [redupe] set, every record is appended and no key is recorded. *)
Lemma run_redupe seen (out : list Layout) records :
  run true (seen, out) records = (seen, out ++ records).
Proof.
  revert out. induction records as [|r records IH]; intros out; simpl.
  - by rewrite app_nil_r.
  - unfold run in *. simpl. rewrite IH. by rewrite <- app_assoc.
Qed.

(** What the filtering loop maintains: the output grows at its end by a
    subsequence of the records read, whose keys are pairwise different and
    were not seen before, and exactly those keys are added to the set. *)
Lemma run_filter_inv records seen (out : list Layout) :
  ∃ new,
    run false (seen, out) records
    = (list_to_set (SemanticHash <$> new) ∪ seen, out ++ new)
    ∧ sublist new records
    ∧ NoDup (SemanticHash <$> new)
    ∧ (∀ h, h ∈ SemanticHash <$> new → h ∉ seen).
Proof.
  revert seen out.
  induction records as [|r records IH]; intros seen out.
  - exists []. simpl. split_and!.
    + f_equal; [set_solver | by rewrite app_nil_r].
    + constructor.
    + constructor.
    + set_solver.
  - unfold run in *. simpl. case_bool_decide as Hseen.
    + destruct (IH seen out) as (new & Hrun & Hsub & Hnd & Hfresh).
      exists new. split_and!; try done. by apply sublist_cons.
    + destruct (IH ({[SemanticHash r]} ∪ seen) (out ++ [r]))
        as (new & Hrun & Hsub & Hnd & Hfresh).
      exists (r :: new). rewrite Hrun. split_and!.
      * f_equal; [set_solver | by rewrite <- app_assoc].
      * by apply sublist_skip.
      * simpl. constructor; [|done].
        intros Hin. apply (Hfresh _ Hin). set_solver.
      * intros h. simpl. rewrite elem_of_cons. intros [->|Hin]; [done|].
        specialize (Hfresh _ Hin). set_solver.
Qed.

(** Records whose keys are pairwise different and not yet seen all pass. *)
Lemma run_filter_fresh new seen (out : list Layout) :
  NoDup (SemanticHash <$> new) →
  (∀ h, h ∈ SemanticHash <$> new → h ∉ seen) →
  run false (seen, out) new
  = (list_to_set (SemanticHash <$> new) ∪ seen, out ++ new).
Proof.
  revert seen out. induction new as [|r new IH]; intros seen out Hnd Hfresh.
  - simpl. f_equal; [set_solver | by rewrite app_nil_r].
  - unfold run in *. simpl in *. apply NoDup_cons in Hnd as [Hr Hnd].
    rewrite bool_decide_eq_false_2 by (apply Hfresh; set_solver).
    rewrite IH; [|done|].
    + f_equal; [set_solver | by rewrite <- app_assoc].
    + intros h Hin. specialize (Hfresh h). set_solver.
Qed.

(** The loop's rows are the rows of the records the loop on records emits. *)
Lemma run_rows {R} (row : Layout → R) redupe records seen (out : list Layout) :
  foldl (fun acc layout => visit row redupe layout acc) (seen, row <$> out)
    records
  = ((run redupe (seen, out) records).1,
     row <$> (run redupe (seen, out) records).2).
Proof.
  revert seen out. unfold run.
  induction records as [|r records IH]; intros seen out; [done|].
  simpl. destruct redupe.
  - rewrite <- IH. by rewrite fmap_app.
  - case_bool_decide; [apply IH|]. rewrite <- IH. by rewrite fmap_app.
Qed.

End Deduplicator.

(** C7.  With [redupe] set the Deduplicator is the identity: for every
    sequence of records the output is the input, unchanged. *)
Theorem Filter_redupe_identity (records : list Layout) :
  Filter records true = records.
Proof. rewrite Filter_run, run_redupe. reflexivity. Qed.



(** The scenario of two publications of one layout: only the first is shown. *)
Example Filter_republished :
  Filter [Layout_of "1" "Foo" "Alice"; Layout_of "2" "Foo" "Alice"] false
  = [Layout_of "1" "Foo" "Alice"].
Proof.
  unfold Filter, run. simpl.
  case_bool_decide as Hfirst; [set_solver|].
  unfold visit.
  change (SemanticHash (Layout_of "2" "Foo" "Alice"))
    with (SemanticHash (Layout_of "1" "Foo" "Alice")).
  case_bool_decide as Hsecond; [reflexivity|]. set_solver.
Qed.

(** C8.  Without [redupe] the Deduplicator is idempotent: its output is a
    fixed point of the filter. *)
Theorem Filter_idempotent (records : list Layout) :
  Filter (Filter records false) false = Filter records false.
Proof.
  rewrite (Filter_run records).
  destruct (run_filter_inv records ∅ []) as (new & -> & _ & Hnd & Hfresh).
  simpl. rewrite Filter_run, run_filter_fresh by done. reflexivity.
Qed.

(** C9.  The semantic key is the one string [title + "-" + creator], so two
    records with different (title, creator) pairs can have the same key, and
    the second is then dropped: title "a-b" by creator "c", followed by title
    "a" by creator "b-c". *)
Theorem SemanticHash_collision :
  (Title (Metadata (Layout_by "a-b" "c")), Creator (Metadata (Layout_by "a-b" "c")))
  ≠ (Title (Metadata (Layout_by "a" "b-c")), Creator (Metadata (Layout_by "a" "b-c")))
  ∧ SemanticHash (Layout_by "a-b" "c") = SemanticHash (Layout_by "a" "b-c")
  ∧ Filter [Layout_by "a-b" "c"; Layout_by "a" "b-c"] false
    = [Layout_by "a-b" "c"].
Proof.
  split_and!.
  - simpl. intros [=].
  - reflexivity.
  - unfold Filter. simpl.
    case_bool_decide as Hfirst; [set_solver|].
    unfold visit.
    change (SemanticHash (Layout_by "a" "b-c"))
      with (SemanticHash (Layout_by "a-b" "c")).
    case_bool_decide as Hsecond; [reflexivity|]. set_solver.
Qed.

(** ** The resolver *)

Section Resolver.

Variable W : World.
Implicit Types (σ : Proc) (uid : string) (l : Layout).

Lemma getLayout_hit σ uid l :
  cache σ !! uid = Some l → getLayout W uid σ = (Return l, σ).
Proof. intros Hhit. unfold getLayout, bind, get. simpl. by rewrite Hhit. Qed.

(** A miss whose request is answered and read to the end: the body is decoded
    into a zero record, whatever the decoder reports, and the record is stored
    and returned. *)
Lemma getLayout_miss σ uid u path resp body m :
  cacheMap σ = Map m →
  cache σ !! uid = None →
  url_Parse W baseURL = inl u →
  url_JoinPath W (Path u) [uid; "meta"] = inl path →
  http_Get W (requests σ) (layoutURL_of W u path) = (Some resp, None) →
  Body resp = (body, None) →
  getLayout W uid σ
  = (Return (json_Unmarshal_Layout W body Layout_zero).1,
     set_cache (<[uid := (json_Unmarshal_Layout W body Layout_zero).1]> (cache σ))
       (add_request (layoutURL_of W u path) σ)).
Proof.
  intros Hmap Hmiss Hu Hpath Hget Hbody.
  unfold getLayout, io_ReadAll_must, Body_of, bind, get, http_Get_,
    layoutURL_of in *.
  simpl.
  rewrite Hmiss, Hu. simpl. rewrite Hpath. simpl. rewrite Hget. simpl.
  rewrite Hbody. simpl. rewrite Hmap. simpl.
  unfold cache. by rewrite Hmap.
Qed.

(** The same miss with the nil map: the assignment panics, after the
    request. *)
Lemma getLayout_miss_nil σ uid u path resp body :
  cacheMap σ = NilMap →
  url_Parse W baseURL = inl u →
  url_JoinPath W (Path u) [uid; "meta"] = inl path →
  http_Get W (requests σ) (layoutURL_of W u path) = (Some resp, None) →
  Body resp = (body, None) →
  getLayout W uid σ
  = (Panicked nilMapAssignment, add_request (layoutURL_of W u path) σ).
Proof.
  intros Hmap Hu Hpath Hget Hbody.
  unfold getLayout, io_ReadAll_must, Body_of, bind, get, http_Get_,
    layoutURL_of in *.
  simpl. unfold cache. rewrite Hmap. simpl.
  rewrite lookup_empty, Hu. simpl. rewrite Hpath. simpl. rewrite Hget. simpl.
  rewrite Hbody. simpl. by rewrite Hmap.
Qed.

(** A transport error on a miss is a panic. *)
Lemma getLayout_transport_error σ uid u path resp e :
  cache σ !! uid = None →
  url_Parse W baseURL = inl u →
  url_JoinPath W (Path u) [uid; "meta"] = inl path →
  http_Get W (requests σ) (layoutURL_of W u path) = (resp, Some e) →
  getLayout W uid σ = (Panicked e, add_request (layoutURL_of W u path) σ).
Proof.
  intros Hmiss Hu Hpath Hget.
  unfold getLayout, io_ReadAll_must, Body_of, bind, get, http_Get_,
    layoutURL_of in *.
  simpl.
  rewrite Hmiss, Hu. simpl. rewrite Hpath. simpl. by rewrite Hget.
Qed.

Lemma getLayout_read_error σ uid u path resp body e :
  cache σ !! uid = None →
  url_Parse W baseURL = inl u →
  url_JoinPath W (Path u) [uid; "meta"] = inl path →
  http_Get W (requests σ) (layoutURL_of W u path) = (Some resp, None) →
  Body resp = (body, Some e) →
  getLayout W uid σ = (Panicked e, add_request (layoutURL_of W u path) σ).
Proof.
  intros Hmiss Hu Hpath Hget Hbody.
  unfold getLayout, io_ReadAll_must, Body_of, bind, get, http_Get_,
    layoutURL_of in *.
  simpl.
  rewrite Hmiss, Hu. simpl. rewrite Hpath. simpl. rewrite Hget. simpl.
  by rewrite Hbody.
Qed.

(** A miss that returns has made one request and one store, of the record it
    returns. *)
Lemma getLayout_miss_inv σ σ' uid l :
  cache σ !! uid = None →
  getLayout W uid σ = (Return l, σ') →
  ∃ url, σ' = set_cache (<[uid := l]> (cache σ)) (add_request url σ).
Proof.
  intros Hmiss.
  unfold getLayout, io_ReadAll_must, Body_of, bind, get, http_Get_. simpl.
  rewrite Hmiss.
  destruct (url_Parse W baseURL) as [u|e]; simpl; [|intros [=]].
  destruct (url_JoinPath W (Path u) [uid; "meta"]) as [path|e]; simpl;
    [|intros [=]].
  destruct (http_Get W (requests σ) _) as [resp [e|]]; simpl; [intros [=]|].
  destruct resp as [resp|]; simpl; [|intros [=]].
  destruct (Body resp) as [body [e|]]; simpl; [intros [=]|].
  destruct (cacheMap σ) as [|m] eqn:Hmap; simpl; intros [= <- <-].
  eexists. unfold cache. rewrite Hmap. reflexivity.
Qed.

(** Whatever the outcome, one call makes at most one request. *)
Lemma getLayout_requests σ σ' uid (o : Outcome Layout) :
  getLayout W uid σ = (o, σ') →
  requests σ' = requests σ ∨ ∃ url, requests σ' = requests σ ++ [url].
Proof.
  unfold getLayout, io_ReadAll_must, Body_of, bind, get, http_Get_. simpl.
  destruct (cache σ !! uid) as [l|]; simpl; [intros [= <- <-]; by left|].
  destruct (url_Parse W baseURL) as [u|e]; simpl; [|intros [= <- <-]; by left].
  destruct (url_JoinPath W (Path u) [uid; "meta"]) as [path|e]; simpl;
    [|intros [= <- <-]; by left].
  destruct (http_Get W (requests σ) _) as [resp [e|]]; simpl;
    [intros [= <- <-]; right; by eexists|].
  destruct resp as [resp|]; simpl; [|intros [= <- <-]; right; by eexists].
  destruct (Body resp) as [body [e|]]; simpl;
    [intros [= <- <-]; right; by eexists|].
  destruct (cacheMap σ) as [|m]; simpl; intros [= <- <-]; right;
    by eexists.
Qed.

(** The loop of [main] resolves the identifiers in order and runs the
    Deduplicator's step on the records, appending rows. *)
Lemma loop_resolveAll redupe (uids : list string) acc σ :
  loop W redupe uids acc σ
  = bind (resolveAll W uids)
      (fun layouts =>
         ret (foldl (fun acc layout => visit (AsRow W) redupe layout acc)
                acc layouts)) σ.
Proof.
  revert acc σ. induction uids as [|uid uids IH]; intros acc σ; [done|].
  simpl. unfold bind.
  destruct (getLayout W uid σ) as [[layout|e|c] σ1]; [|done..].
  rewrite IH. unfold bind, ret.
  by destruct (resolveAll W uids σ1) as [[layouts|e|c] σ2].
Qed.

(** The rows of the table are the rows of the records the Deduplicator lets
    through, out of the records resolved. *)
Lemma loop_Filter redupe (uids : list string) σ :
  loop W redupe uids (∅, []) σ
  = bind (resolveAll W uids)
      (fun layouts =>
         ret ((run redupe (∅, []) layouts).1,
              AsRow W <$> Filter layouts redupe)) σ.
Proof.
  rewrite loop_resolveAll. unfold bind.
  destruct (resolveAll W uids σ) as [[layouts|e|c] σ1]; [|done..].
  unfold ret. f_equal. f_equal. apply (run_rows (AsRow W) redupe layouts ∅ []).
Qed.

End Resolver.

(** C6.  Resolving an identifier the cache holds returns the cached record and
    leaves the process as it was, the list of requests included.  Resolving an
    identifier the cache does not hold, when it returns a record, has made
    exactly one request and stored exactly that record under the identifier,
    and resolving the identifier again returns the same record with no further
    request.  Whatever its outcome, one resolution makes at most one
    request. *)
Theorem getLayout_cache_hit_and_miss (W : World) (σ : Proc) (uid : string) :
  (∀ l, cache σ !! uid = Some l → getLayout W uid σ = (Return l, σ))
  ∧ (∀ l σ',
       cache σ !! uid = None →
       getLayout W uid σ = (Return l, σ') →
       (∃ url, requests σ' = requests σ ++ [url])
       ∧ cache σ' = <[uid := l]> (cache σ)
       ∧ files σ' = files σ
       ∧ getLayout W uid σ' = (Return l, σ'))
  ∧ (∀ o σ',
       getLayout W uid σ = (o, σ') →
       requests σ' = requests σ ∨ ∃ url, requests σ' = requests σ ++ [url]).
Proof.
  split_and!.
  - intros l. apply getLayout_hit.
  - intros l σ' Hmiss Hget.
    destruct (getLayout_miss_inv W σ σ' uid l Hmiss Hget) as [url ->].
    split_and!; [by exists url|done|done|].
    apply getLayout_hit. simpl. apply lookup_insert_eq.
  - intros o σ'. apply getLayout_requests.
Qed.

Lemma getLayout_cache_hit_and_miss_sample :
  getLayout World_glove80 "id1" (Proc_sample ∅ ∅)
  = (Return (Layout_of "id1" "Foo" "Alice"),
     {| cacheMap := Map cache_sample; cachePath := cachePath_sample; files := ∅;
        requests := ["https://my.glove80.com/api/layouts/v1/id1/meta"] |})
  ∧ getLayout World_glove80 "id1"
      {| cacheMap := Map cache_sample; cachePath := cachePath_sample; files := ∅;
         requests := ["https://my.glove80.com/api/layouts/v1/id1/meta"] |}
    = (Return (Layout_of "id1" "Foo" "Alice"),
       {| cacheMap := Map cache_sample; cachePath := cachePath_sample; files := ∅;
          requests := ["https://my.glove80.com/api/layouts/v1/id1/meta"] |}).
Proof.
  assert (Hget : getLayout World_glove80 "id1" (Proc_sample ∅ ∅)
    = (Return (Layout_of "id1" "Foo" "Alice"),
       {| cacheMap := Map cache_sample; cachePath := cachePath_sample; files := ∅;
          requests := ["https://my.glove80.com/api/layouts/v1/id1/meta"] |})).
  { vm_compute. reflexivity. }
  split; [exact Hget|].
  destruct (getLayout_cache_hit_and_miss World_glove80 (Proc_sample ∅ ∅) "id1")
    as (_ & Hmiss & _).
  apply (Hmiss _ _ eq_refl Hget).
Defined.

(** C10, as the code has it.  On a miss whose request is answered with a body
    for which the JSON decoder reports an error, the resolver does not look
    at the error: with a cache map that is not nil it returns normally,
    stores under the identifier whatever the decoder left in the record and
    returns that record (the zero record [Layout{}] when the decoder left its
    target as it was); with the nil map the assignment panics. *)
Theorem getLayout_stores_what_decoder_left (W : World) (σ : Proc)
    (uid : string) (u : URL) (path : string) (resp : Response) (body : bytes)
    (r : Layout) (e : error) :
  cache σ !! uid = None →
  url_Parse W baseURL = inl u →
  url_JoinPath W (Path u) [uid; "meta"] = inl path →
  http_Get W (requests σ) (layoutURL_of W u path) = (Some resp, None) →
  Body resp = (body, None) →
  json_Unmarshal_Layout W body Layout_zero = (r, Some e) →
  (∀ m,
     cacheMap σ = Map m →
     getLayout W uid σ
     = (Return r,
        set_cache (<[uid := r]> m) (add_request (layoutURL_of W u path) σ))
     ∧ cache (set_cache (<[uid := r]> m)
                (add_request (layoutURL_of W u path) σ)) !! uid
       = Some r)
  ∧ (cacheMap σ = NilMap →
     getLayout W uid σ
     = (Panicked nilMapAssignment, add_request (layoutURL_of W u path) σ)).
Proof.
  intros Hmiss Hu Hpath Hget Hbody Hjson. split.
  - intros m Hmap.
    rewrite (getLayout_miss W σ uid u path resp body m Hmap Hmiss Hu Hpath
               Hget Hbody).
    rewrite Hjson. simpl. unfold cache at 1. rewrite Hmap. simpl.
    split; [done|]. apply lookup_insert_eq.
  - intros Hmap. by eapply getLayout_miss_nil.
Qed.

Lemma getLayout_stores_what_decoder_left_sample :
  (∀ m,
     Map ∅ = Map m →
     getLayout World_glove80 "id9" (Proc_sample ∅ ∅)
     = (Return Layout_zero,
        set_cache (<["id9" := Layout_zero]> m)
          (add_request "https://my.glove80.com/api/layouts/v1/id9/meta"
             (Proc_sample ∅ ∅)))
     ∧ cache (set_cache (<["id9" := Layout_zero]> m)
                (add_request "https://my.glove80.com/api/layouts/v1/id9/meta"
                   (Proc_sample ∅ ∅))) !! "id9"
       = Some Layout_zero)
  ∧ (Map ∅ = NilMap →
     getLayout World_glove80 "id9" (Proc_sample ∅ ∅)
     = (Panicked nilMapAssignment,
        add_request "https://my.glove80.com/api/layouts/v1/id9/meta"
          (Proc_sample ∅ ∅))).
Proof.
  refine (getLayout_stores_what_decoder_left World_glove80 (Proc_sample ∅ ∅)
            "id9"
            {| Origin := "https://my.glove80.com"; Path := "/api/layouts/v1/";
               RawQuery := "" |}
            "/api/layouts/v1/id9/meta"
            {| Body := (text "<html>404 Not Found</html>", None) |}
            (text "<html>404 Not Found</html>") Layout_zero syntaxError
            _ _ _ _ _ _);
    reflexivity.
Defined.

(** C10 as stated fails at two inputs.  A body that is JSON of the wrong shape
    for a layout record: the decoder reports an error and leaves a partly
    filled record, and that record, not the zero record, is stored and
    returned.  And a process whose cache map is nil: the resolver panics. *)
Lemma getLayout_undecodable_body_counterexample :
  json_Unmarshal_Layout World_wrong_shape (text wrong_shape_body) Layout_zero
  = (Layout_by "Foo" "", Some typeError)
  ∧ getLayout World_wrong_shape "id1" (Proc_sample ∅ ∅)
    = (Return (Layout_by "Foo" ""),
       {| cacheMap := Map {[ "id1" := Layout_by "Foo" "" ]};
          cachePath := cachePath_sample; files := ∅;
          requests := ["https://my.glove80.com/api/layouts/v1/id1/meta"] |})
  ∧ Layout_by "Foo" "" ≠ Layout_zero
  ∧ getLayout World_glove80 "id9" (Proc_nil ∅)
    = (Panicked nilMapAssignment,
       {| cacheMap := NilMap; cachePath := cachePath_sample; files := ∅;
          requests := ["https://my.glove80.com/api/layouts/v1/id9/meta"] |}).
Proof.
  split_and!; [vm_compute; reflexivity..|done|vm_compute; reflexivity].
Qed.

(** C3, at a failing input: the server answers the request for [id9] with an
    HTML page, the decoder reports a syntax error, and the resolver returns
    normally with the zero record stored in the cache.  No panic. *)
Theorem getLayout_parse_error_not_fatal :
  json_Unmarshal_Layout World_glove80 (text "<html>404 Not Found</html>")
    Layout_zero
  = (Layout_zero, Some syntaxError)
  ∧ getLayout World_glove80 "id9" (Proc_sample ∅ ∅)
    = (Return Layout_zero,
       {| cacheMap := Map {[ "id9" := Layout_zero ]}; cachePath := cachePath_sample;
          files := ∅;
          requests := ["https://my.glove80.com/api/layouts/v1/id9/meta"] |}).
Proof. split; vm_compute; reflexivity. Qed.

(** ** The cache file *)

Section CacheFile.

Variable W : World.
Implicit Types (σ : Proc) (b : bytes).

(** A file that can be read is decoded into [cache] and the decoder's verdict
    is not looked at. *)
Lemma readCache_readable σ b :
  read_fault W (cachePath σ) = None →
  files σ !! cachePath σ = Some b →
  readCache W σ
  = (Return tt, set_cacheMap (json_Unmarshal_cache W b (cacheMap σ)).1 σ).
Proof.
  intros Hfault Hfile. unfold readCache, bind, get, ioutil_ReadFile. simpl.
  by rewrite Hfault, Hfile.
Qed.

(** A missing file is decoded as the empty byte sequence. *)
Lemma readCache_missing σ :
  read_fault W (cachePath σ) = None →
  files σ !! cachePath σ = None →
  readCache W σ
  = (Return tt, set_cacheMap (json_Unmarshal_cache W [] (cacheMap σ)).1 σ).
Proof.
  intros Hfault Hfile. unfold readCache, bind, get, ioutil_ReadFile. simpl.
  by rewrite Hfault, Hfile.
Qed.

(** A read error other than absence is a panic. *)
Lemma readCache_read_error σ e :
  read_fault W (cachePath σ) = Some e →
  errors_Is_ErrNotExist e = false →
  readCache W σ = (Panicked e, σ).
Proof.
  intros Hfault He. unfold readCache, bind, get, ioutil_ReadFile. simpl.
  by rewrite Hfault, He.
Qed.

(** A write that succeeds leaves the encoded cache in the file. *)
Lemma writeCache_written σ b :
  json_Marshal_cache W (cacheMap σ) = inl b →
  write_fault W (cachePath σ) = None →
  writeCache W σ
  = (Return tt, set_files (<[cachePath σ := b]> (files σ)) σ).
Proof.
  intros Hb Hfault. unfold writeCache, bind, get, ioutil_WriteFile. simpl.
  by rewrite Hb, Hfault.
Qed.

(** A write that fails is not a panic. *)
Lemma writeCache_write_error σ b f :
  json_Marshal_cache W (cacheMap σ) = inl b →
  write_fault W (cachePath σ) = Some f →
  ∃ σ', writeCache W σ = (Return tt, σ') ∧ cache σ' = cache σ.
Proof.
  intros Hb Hfault. unfold writeCache, bind, get, ioutil_WriteFile. simpl.
  rewrite Hb, Hfault. destruct f; simpl; eexists; split; reflexivity.
Qed.

End CacheFile.




(** C4, at a failing input: the cache file exists and holds bytes the decoder
    rejects; [readCache] returns normally and the run goes on with an empty
    cache.  No panic. *)
Theorem readCache_corrupt_file_not_fatal :
  json_Unmarshal_cache World_glove80 (text "{id1") (Map ∅)
  = (Map ∅, Some syntaxError)
  ∧ readCache World_glove80
      (Proc_sample ∅ {[ cachePath_sample := text "{id1" ]})
    = (Return tt, Proc_sample ∅ {[ cachePath_sample := text "{id1" ]}).
Proof. split; vm_compute; reflexivity. Qed.

(** ** The selection window *)

Section Window.

Implicit Types (s : slice string) (offset limit : Z).

Lemma wrap64_small z : - 2 ^ 63 <= z < 2 ^ 63 → wrap64 z = z.
Proof. intros Hz. unfold wrap64. rewrite Z.mod_small; lia. Qed.

(** Within the length of the list the window skips [offset] identifiers and
    takes the next [limit]. *)
Lemma window_within_len s offset limit :
  cap s < 2 ^ 63 →
  0 <= offset → 0 <= limit → offset + limit <= len s →
  window s offset limit
  = Some (take (Z.to_nat limit) (drop (Z.to_nat offset) (elems s))).
Proof.
  intros Hcap Hoff Hlim Hlen. unfold window, slice_expr, int_add.
  assert (len s <= cap s) by (unfold len, cap; lia).
  rewrite wrap64_small by lia.
  rewrite bool_decide_eq_true_2 by lia.
  replace (offset + limit - offset) with limit by lia.
  f_equal. rewrite drop_app_le by (unfold len in *; lia).
  rewrite take_app_le; [done|].
  rewrite length_drop. unfold len in *. lia.
Qed.

(** Past the capacity of the list the slice expression panics. *)
Lemma window_beyond_cap s offset limit :
  cap s < offset + limit < 2 ^ 63 → 0 <= limit →
  window s offset limit = None.
Proof.
  intros Hcap Hlim. unfold window, slice_expr, int_add.
  assert (0 <= cap s) by (unfold cap; lia).
  destruct (decide (0 <= offset)) as [Hoff|Hoff].
  - rewrite wrap64_small by lia. rewrite bool_decide_eq_false_2; [done|lia].
  - rewrite bool_decide_eq_false_2; [done|lia].
Qed.

End Window.

(** C1, at failing inputs: the search returns three identifiers (in a backing
    array of four).  With the default flags, offset 0 and limit 10, the slice
    expression panics; with offset 3 or 5, where the window should be empty,
    it panics as well, or, when the capacity allows it, reaches into the
    backing array; and the whole run of [main] with the default flags
    panics. *)
Theorem window_out_of_range_panics :
  window uids_sample 0 10 = None
  ∧ window uids_sample 3 10 = None
  ∧ window uids_sample 5 10 = None
  ∧ window uids_sample 3 1 = Some [""]
  ∧ json_Unmarshal_uids World_glove80 (text "[id1,id2,id3]") (mkSlice [] [])
    = (uids_sample, None)
  ∧ (main World_glove80 [] false false 10 0 (Proc_init ∅ [])).1
    = Panicked sliceOutOfRange.
Proof. split_and!; vm_compute; reflexivity. Qed.

(** ** Sample runs of [main] *)

(** The first three layouts with deduplication: the second has the title and
    creator of the first and is left out; the cache file holds all three. *)
Example main_sample_dedup :
  ∃ σ',
    main World_glove80 [] false false 3 0 (Proc_init ∅ [])
    = (Return {| Header := ["Date"; "Title"; "Notes"; "Author"];
                 Rows := [["1/1/70"; "Foo"; ""; "Alice"];
                          ["1/1/70"; "Bar"; ""; "Bob"]] |}, σ')
    ∧ dom (cache σ') = {["id1"; "id2"; "id3"]}
    ∧ requests σ'
      = ["https://my.glove80.com/api/layouts/v1/";
         "https://my.glove80.com/api/layouts/v1/id1/meta";
         "https://my.glove80.com/api/layouts/v1/id2/meta";
         "https://my.glove80.com/api/layouts/v1/id3/meta"].
Proof. eexists. split_and!; vm_compute; reflexivity. Qed.

Example main_sample_redupe :
  (main World_glove80 [] false true 2 1 (Proc_init ∅ [])).1
  = Return {| Header := ["Date"; "Title"; "Notes"; "Author"];
              Rows := [["1/1/70"; "Foo"; ""; "Alice"];
                       ["1/1/70"; "Bar"; ""; "Bob"]] |}.
Proof. vm_compute. reflexivity. Qed.

(** More than one positional argument ends the process at once. *)
Example main_sample_usage :
  (main World_glove80 ["a"; "b"] false false 10 0 (Proc_init ∅ [])).1
  = Exited 1.
Proof. vm_compute. reflexivity. Qed.

(** A run of [main] that returns shows the rows of the records the
    Deduplicator lets through, out of the records resolved for the identifiers
    of the selection window. *)
Lemma main_rows (W : World) args debug redupe limit offset σ σ' (t : Table) :
  main W args debug redupe limit offset σ = (Return t, σ') →
  ∃ uids selected layouts σ1 σ2,
    window uids offset limit = Some selected
    ∧ resolveAll W selected σ1 = (Return layouts, σ2)
    ∧ Header t = ["Date"; "Title"; "Notes"; "Author"]
    ∧ Rows t = AsRow W <$> Filter layouts redupe.
Proof.
  unfold main, bind, must, modify, defer, panic, ret, log_Fatalf.
  intros Hmain.
  repeat match goal with
         | H : context [match ?x with _ => _ end] |- _ =>
             lazymatch x with
             | loop _ _ _ _ _ => fail
             | _ => destruct x eqn:?; simplify_eq/=
             end
         end.
  all: match goal with
       | Hloop : context [loop ?w _ ?sel _ ?st] |- _ =>
           rewrite loop_Filter in Hloop; unfold bind, ret in Hloop;
           destruct (resolveAll w sel st) as [[layouts| |] st'] eqn:Hres;
           simplify_eq/=
       end.
  all: do 5 eexists; split_and!; [eassumption|eassumption|reflexivity..].
Qed.

(** * Further properties *)

(** ** The Deduplicator, continued *)

Section DeduplicatorMore.

Implicit Types (records new : list Layout) (seen : gset string).

(** The keys recorded are the keys read. *)
Lemma run_filter_seen records seen (out : list Layout) :
  (run false (seen, out) records).1
  = list_to_set (SemanticHash <$> records) ∪ seen.
Proof.
  revert seen out. induction records as [|r records IH]; intros seen out.
  - simpl. set_solver.
  - unfold run in *. simpl. case_bool_decide as Hseen; rewrite IH; set_solver.
Qed.

(** From a set of keys already seen, the loop emits what the Deduplicator
    emits, less the records whose key was seen. *)
Lemma run_filter_from records seen (out : list Layout) :
  (run false (seen, out) records).2
  = out ++ filter (fun r => SemanticHash r ∉ seen) (Filter records false).
Proof.
  revert seen out. induction records as [|r records IH]; intros seen out.
  - simpl. by rewrite app_nil_r.
  - rewrite Filter_run. unfold run in *. simpl.
    rewrite (bool_decide_eq_false_2 (SemanticHash r ∈ ∅)) by set_solver.
    rewrite (IH ({[SemanticHash r]} ∪ ∅) ([] ++ [r])). simpl.
    case_bool_decide as Hseen.
    + rewrite IH. f_equal. rewrite filter_cons_False by (intros Hn; exact (Hn Hseen)).
      rewrite list_filter_filter. apply list_filter_iff. intros x. cbn beta.
      rewrite elem_of_union, elem_of_singleton, elem_of_empty.
      split; [intros Hx|by intros [Hx _]].
      split; [done|]. intros [Heq|[]]. apply Hx. by rewrite Heq.
    + rewrite IH. rewrite filter_cons_True by done.
      rewrite <- app_assoc. simpl. do 2 f_equal.
      rewrite list_filter_filter. apply list_filter_iff. intros x. cbn beta.
      rewrite !elem_of_union, elem_of_singleton, elem_of_empty.
      tauto.
Qed.

End DeduplicatorMore.

(** X1.  Without [redupe] no key is lost: the keys of the output are exactly
    the keys of the input, and the output has as many records as the input has
    different keys. *)
Theorem Filter_keeps_every_key (records : list Layout) :
  (list_to_set (SemanticHash <$> Filter records false) : gset string)
  = list_to_set (SemanticHash <$> records)
  ∧ length (Filter records false)
    = size (list_to_set (SemanticHash <$> records) : gset string).
Proof.
  assert (Hkeys :
    (list_to_set (SemanticHash <$> Filter records false) : gset string)
    = list_to_set (SemanticHash <$> records)).
  { pose proof (run_filter_seen records ∅ []) as Hseen.
    rewrite Filter_run.
    destruct (run_filter_inv records ∅ []) as (new & Hrun & _).
    rewrite Hrun in *. simpl in *. set_solver. }
  split; [exact Hkeys|].
  rewrite <- Hkeys, size_list_to_set, length_fmap; [done|].
  rewrite Filter_run.
  by destruct (run_filter_inv records ∅ []) as (new & -> & _ & Hnd & _).
Qed.

(** X2.  Without [redupe] the Deduplicator leaves a sequence unchanged exactly
    when its keys are pairwise different. *)
Theorem Filter_fixed_iff_distinct (records : list Layout) :
  Filter records false = records ↔ NoDup (SemanticHash <$> records).
Proof.
  split.
  - intros Hfix. rewrite <- Hfix, Filter_run.
    by destruct (run_filter_inv records ∅ []) as (new & -> & _ & Hnd & _).
  - intros Hnd. rewrite Filter_run, run_filter_fresh; [done|done|set_solver].
Qed.

(** X3.  Deduplicating a concatenation: the first part is deduplicated on its
    own, and the second part contributes what it would on its own, less the
    records whose key occurs in the first part. *)
Theorem Filter_app (records1 records2 : list Layout) :
  Filter (records1 ++ records2) false
  = Filter records1 false
    ++ filter (fun r => SemanticHash r ∉ SemanticHash <$> records1)
         (Filter records2 false).
Proof.
  rewrite (Filter_run (records1 ++ records2)), run_app.
  destruct (run false (∅, []) records1) as [seen out] eqn:Hrun.
  rewrite run_filter_from.
  assert (Hout : out = Filter records1 false) by by rewrite Filter_run, Hrun.
  assert (Hseen : seen = list_to_set (SemanticHash <$> records1)).
  { pose proof (run_filter_seen records1 ∅ []) as Hs. rewrite Hrun in Hs.
    simpl in Hs. set_solver. }
  subst out. f_equal. apply list_filter_iff. intros x. cbn beta.
  by rewrite Hseen, elem_of_list_to_set.
Qed.

(** Up to the first hyphen two strings joined by a hyphen determine their
    parts. *)
Lemma append_hyphen_inj (s1 s2 t1 t2 : string) :
  has_hyphen s1 = false → has_hyphen s2 = false →
  s1 +:+ "-" +:+ t1 = s2 +:+ "-" +:+ t2 →
  s1 = s2 ∧ t1 = t2.
Proof.
  assert (Hnil : ∀ t, "" +:+ "-" +:+ t = String hyphen t) by reflexivity.
  assert (Hcons : ∀ c s t,
    String c s +:+ "-" +:+ t = String c (s +:+ "-" +:+ t)) by reflexivity.
  revert s2. induction s1 as [|c s1 IH]; intros [|d s2]; simpl;
    rewrite ?Hnil, ?Hcons.
  - by intros _ _ [= ->].
  - intros _ Hd [= <- _]. by rewrite Ascii.eqb_refl in Hd.
  - intros Hc _ [= -> _]. by rewrite Ascii.eqb_refl in Hc.
  - destruct (Ascii.eqb c hyphen) eqn:Hc; [done|].
    destruct (Ascii.eqb d hyphen) eqn:Hd; [done|].
    intros H1 H2 [= -> Heq]. destruct (IH s2 H1 H2 Heq) as [-> ->]. done.
Qed.

(** X4.  Among records whose titles hold no hyphen the key is faithful: two
    such records have the same key only if they have the same title and the
    same creator. *)
Theorem SemanticHash_faithful_without_hyphen (a b : Layout) :
  has_hyphen (Title (Metadata a)) = false →
  has_hyphen (Title (Metadata b)) = false →
  SemanticHash a = SemanticHash b →
  Title (Metadata a) = Title (Metadata b)
  ∧ Creator (Metadata a) = Creator (Metadata b).
Proof. unfold SemanticHash. apply append_hyphen_inj. Qed.

Lemma SemanticHash_faithful_without_hyphen_sample :
  Title (Metadata (Layout_of "1" "Foo" "Alice"))
  = Title (Metadata (Layout_of "2" "Foo" "Alice"))
  ∧ Creator (Metadata (Layout_of "1" "Foo" "Alice"))
    = Creator (Metadata (Layout_of "2" "Foo" "Alice")).
Proof.
  apply (SemanticHash_faithful_without_hyphen
           (Layout_of "1" "Foo" "Alice") (Layout_of "2" "Foo" "Alice"));
    reflexivity.
Defined.

(** ** The selection window, continued *)

Section WindowMore.

Implicit Types (s : slice string) (offset limit : Z).

Lemma wrap64_over z : 2 ^ 63 <= z < 2 ^ 64 → wrap64 z = z - 2 ^ 64.
Proof.
  intros Hz. unfold wrap64.
  replace (z + 2 ^ 63) with (z - 2 ^ 63 + 1 * 2 ^ 64) by lia.
  rewrite Z_mod_plus_full, Z.mod_small; lia.
Qed.

(** A window that does not panic was asked for within the capacity, and has
    exactly [limit] elements. *)
Lemma window_Some_inv s offset limit selected :
  - 2 ^ 63 <= offset < 2 ^ 63 → - 2 ^ 63 <= limit < 2 ^ 63 →
  window s offset limit = Some selected →
  0 <= offset ∧ 0 <= limit ∧ offset + limit <= cap s
  ∧ Z.of_nat (length selected) = limit.
Proof.
  intros Hoff Hlim. unfold window, slice_expr, int_add.
  case_bool_decide as Hin; [|done]. intros [= <-].
  destruct Hin as (Hlow & Hle & Hhigh).
  destruct (decide (offset + limit < 2 ^ 63)) as [Hsum|Hsum].
  - rewrite wrap64_small in * by lia.
    split_and!; [lia..|].
    rewrite length_take, length_drop, length_app. unfold cap in *. lia.
  - rewrite wrap64_over in Hle by lia. lia.
Qed.

End WindowMore.

(** X5.  For flags and a capacity in the range of [int], the slice expression
    of the selection window succeeds exactly when the offset and the limit are
    not negative and their sum is within the capacity of the list; and a
    window that succeeds has exactly [limit] elements, never fewer. *)
Theorem window_defined_exactly (s : slice string) (offset limit : Z) :
  cap s < 2 ^ 63 →
  - 2 ^ 63 <= offset < 2 ^ 63 → - 2 ^ 63 <= limit < 2 ^ 63 →
  (is_Some (window s offset limit)
   ↔ 0 <= offset ∧ 0 <= limit ∧ offset + limit <= cap s)
  ∧ (∀ selected,
       window s offset limit = Some selected →
       Z.of_nat (length selected) = limit).
Proof.
  intros Hcap Hoff Hlim. split.
  - split.
    + intros [selected Hsel].
      destruct (window_Some_inv s offset limit selected) as (?&?&?&_); done.
    + intros (Hlow & Hl & Hhigh). unfold window, slice_expr, int_add.
      rewrite wrap64_small by lia. rewrite bool_decide_eq_true_2 by lia. done.
  - intros selected Hsel.
    by destruct (window_Some_inv s offset limit selected) as (?&?&?&?).
Qed.

Lemma window_defined_exactly_sample :
  (is_Some (window uids_sample 1 2) ↔ 0 <= 1 ∧ 0 <= 2 ∧ 1 + 2 <= cap uids_sample)
  ∧ (∀ selected,
       window uids_sample 1 2 = Some selected →
       Z.of_nat (length selected) = 2).
Proof.
  apply (window_defined_exactly uids_sample 1 2); vm_compute; done.
Defined.

(** X6.  Within the length of the list the window skips the first [offset]
    identifiers and takes the next [limit], in order; with offset 0 and the
    length as limit it is the whole list. *)
Theorem window_within_length (s : slice string) (offset limit : Z) :
  cap s < 2 ^ 63 →
  0 <= offset → 0 <= limit → offset + limit <= len s →
  window s offset limit
  = Some (take (Z.to_nat limit) (drop (Z.to_nat offset) (elems s)))
  ∧ window s 0 (len s) = Some (elems s).
Proof.
  intros Hcap Hoff Hlim Hlen. split; [by apply window_within_len|].
  rewrite window_within_len; [|done|done|unfold len; lia|lia].
  unfold len. rewrite Nat2Z.id. simpl. by rewrite firstn_all.
Qed.

Lemma window_within_length_sample :
  window uids_sample 1 2 = Some ["id2"; "id3"]
  ∧ window uids_sample 0 (len uids_sample) = Some ["id1"; "id2"; "id3"].
Proof.
  apply (window_within_length uids_sample 1 2); vm_compute; congruence.
Defined.

(** ** Frames: what the functions leave alone *)

(** Counting the elements outside [D] when a fresh one is added. *)
Lemma size_difference_fresh (x : string) (X D : gset string) :
  x ∉ D →
  size (({[x]} ∪ X) ∖ D) = S (size (X ∖ ({[x]} ∪ D))).
Proof.
  intros Hx.
  replace (({[x]} ∪ X) ∖ D) with ({[x]} ∪ X ∖ ({[x]} ∪ D)).
  - rewrite size_union by set_solver. by rewrite size_singleton.
  - apply set_eq. intros y. destruct (decide (y = x)) as [->|]; set_solver.
Qed.

Section Frames.

Variable W : World.
Implicit Types (σ : Proc) (uid : string) (l : Layout).

(** Everything one resolution can do to the process. *)
Lemma getLayout_effects σ σ' uid (o : Outcome Layout) :
  getLayout W uid σ = (o, σ') →
  files σ' = files σ ∧ cachePath σ' = cachePath σ
  ∧ cache σ ⊆ cache σ'
  ∧ match o with
    | Return l =>
        cache σ' !! uid = Some l ∧ dom (cache σ') = dom (cache σ) ∪ {[uid]}
    | Panicked _ => cache σ' = cache σ
    | Exited _ => False
    end.
Proof.
  destruct (cache σ !! uid) as [l|] eqn:Hlookup.
  - rewrite (getLayout_hit W σ uid l Hlookup). intros [= <- <-].
    split_and!; try done. apply elem_of_dom_2 in Hlookup. set_solver.
  - revert Hlookup.
    unfold getLayout, io_ReadAll_must, Body_of, bind, get, http_Get_. simpl.
    intros Hmiss. rewrite Hmiss.
    destruct (url_Parse W baseURL) as [u|e]; simpl; [|by intros [= <- <-]].
    destruct (url_JoinPath W (Path u) [uid; "meta"]) as [path|e]; simpl;
      [|by intros [= <- <-]].
    destruct (http_Get W (requests σ) _) as [resp [e|]]; simpl;
      [by intros [= <- <-]|].
    destruct resp as [resp|]; simpl; [|by intros [= <- <-]].
    destruct (Body resp) as [body [e|]]; simpl; [by intros [= <- <-]|].
    destruct (cacheMap σ) as [|m] eqn:Hmap; simpl; intros [= <- <-];
      simpl_cache; [done|].
    rewrite (cache_Map σ m Hmap) in *.
    split_and!; try done.
    + by apply insert_subseteq.
    + apply lookup_insert_eq.
    + rewrite dom_insert_L. set_solver.
Qed.

(** Everything a run of the resolver over a list can do, whatever its
    outcome. *)
Lemma resolveAll_frame (uids : list string) σ σ' (o : Outcome (list Layout)) :
  resolveAll W uids σ = (o, σ') →
  files σ' = files σ ∧ cachePath σ' = cachePath σ ∧ cache σ ⊆ cache σ'
  ∧ ∀ c, o ≠ Exited c.
Proof.
  revert σ σ' o. induction uids as [|uid uids IH]; intros σ σ' o; simpl.
  - by intros [= <- <-].
  - unfold bind.
    destruct (getLayout W uid σ) as [[l|e|c] σ1] eqn:Hget;
      destruct (getLayout_effects _ _ _ _ Hget) as (Hf & Hp & Hc & Ho);
      [|by intros [= <- <-]|done].
    destruct (resolveAll W uids σ1) as [[ls|e|c] σ2] eqn:Hres;
      destruct (IH _ _ _ Hres) as (Hf' & Hp' & Hc' & Ho');
      [| |by destruct (Ho' c)].
    all: intros [= <- <-]; split_and!; try congruence;
      by etrans.
Qed.

(** A run of the resolver that returns: each identifier is in the cache with
    the record returned for it, the cache has grown by exactly the identifiers
    asked for, and each identifier that was not cached has been requested
    exactly once. *)
Lemma resolveAll_effects (uids : list string) σ σ' (layouts : list Layout) :
  resolveAll W uids σ = (Return layouts, σ') →
  Forall2 (fun uid l => cache σ' !! uid = Some l) uids layouts
  ∧ dom (cache σ') = dom (cache σ) ∪ list_to_set uids
  ∧ ∃ new,
      requests σ' = requests σ ++ new
      ∧ length new = size (list_to_set uids ∖ dom (cache σ) : gset string).
Proof.
  revert σ σ' layouts.
  induction uids as [|uid uids IH]; intros σ σ' layouts; simpl.
  - intros [= <- <-]. split_and!; [constructor|set_solver|].
    exists []. rewrite app_nil_r. split; [done|].
    replace (∅ ∖ dom (cache σ) : gset string) with (∅ : gset string)
      by set_solver.
    done.
  - unfold bind.
    destruct (getLayout W uid σ) as [[l|e|c] σ1] eqn:Hget; [|done..].
    destruct (resolveAll W uids σ1) as [[ls|e|c] σ2] eqn:Hres; [|done..].
    intros [= <- <-].
    destruct (IH _ _ _ Hres) as (Hall & Hdom & new & Hreq & Hlen).
    destruct (resolveAll_frame _ _ _ _ Hres) as (_ & _ & Hsub & _).
    destruct (getLayout_effects _ _ _ _ Hget) as (_ & _ & _ & Hl & Hdom1).
    split_and!.
    + constructor; [|done]. by eapply lookup_weaken.
    + rewrite Hdom, Hdom1. set_solver.
    + destruct (cache σ !! uid) as [l'|] eqn:Hlookup.
      * rewrite (getLayout_hit W σ uid l' Hlookup) in Hget.
        injection Hget as <- <-.
        exists new. split; [done|]. rewrite Hlen. f_equal.
        apply elem_of_dom_2 in Hlookup. set_solver.
      * destruct (getLayout_miss_inv W σ σ1 uid l Hlookup Hget) as [url ->].
        simpl_cache_in Hlen. simpl in *. exists (url :: new). split.
        { rewrite Hreq. by rewrite <- app_assoc. }
        simpl. rewrite Hlen, dom_insert_L.
        apply not_elem_of_dom in Hlookup.
        rewrite <- (size_difference_fresh uid (list_to_set uids)
                      (dom (cache σ)) Hlookup).
        done.
Qed.

(** With every identifier in the cache, the resolver makes no request and
    changes nothing. *)
Lemma resolveAll_hits (uids : list string) σ :
  (∀ uid, uid ∈ uids → is_Some (cache σ !! uid)) →
  ∃ layouts,
    resolveAll W uids σ = (Return layouts, σ)
    ∧ Forall2 (fun uid l => cache σ !! uid = Some l) uids layouts.
Proof.
  induction uids as [|uid uids IH]; intros Hcached; simpl.
  - exists []. split; [done|constructor].
  - destruct (Hcached uid) as [l Hl]; [set_solver|].
    destruct IH as (ls & Hres & Hall); [intros; apply Hcached; set_solver|].
    exists (l :: ls). unfold bind.
    rewrite (getLayout_hit W σ uid l Hl), Hres. split; [done|].
    by constructor.
Qed.

Lemma readCache_effects σ σ' (o : Outcome unit) :
  readCache W σ = (o, σ') →
  files σ' = files σ ∧ cachePath σ' = cachePath σ
  ∧ requests σ' = requests σ
  ∧ (o = Return tt
     ∨ ∃ e, o = Panicked e ∧ σ' = σ
            ∧ read_fault W (cachePath σ) = Some e
            ∧ errors_Is_ErrNotExist e = false).
Proof.
  unfold readCache, bind, get, ioutil_ReadFile. simpl.
  destruct (read_fault W (cachePath σ)) as [e|] eqn:Hfault; simpl.
  - destruct (errors_Is_ErrNotExist e) eqn:He; simpl; intros [= <- <-].
    + split_and!; try done. by left.
    + split_and!; try done. right. by exists e.
  - destruct (files σ !! cachePath σ); simpl; intros [= <- <-];
      split_and!; try done; by left.
Qed.

Lemma writeCache_effects σ σ' (o : Outcome unit) :
  writeCache W σ = (o, σ') →
  cache σ' = cache σ ∧ cachePath σ' = cachePath σ
  ∧ requests σ' = requests σ
  ∧ (∀ p, p ≠ cachePath σ → files σ' !! p = files σ !! p)
  ∧ match json_Marshal_cache W (cacheMap σ) with
    | inl b => o = Return tt
    | inr e => o = Panicked e ∧ σ' = σ
    end.
Proof.
  unfold writeCache, bind, get, ioutil_WriteFile. simpl.
  destruct (json_Marshal_cache W (cacheMap σ)) as [b|e]; simpl;
    [|by intros [= <- <-]].
  destruct (write_fault W (cachePath σ)) as [[e|e n]|]; simpl;
    intros [= <- <-]; split_and!; try done;
    intros p Hp; simpl; by rewrite lookup_insert_ne.
Qed.

Lemma writeCache_cacheMap σ σ' (o : Outcome unit) :
  writeCache W σ = (o, σ') → cacheMap σ' = cacheMap σ.
Proof.
  unfold writeCache, bind, get, ioutil_WriteFile. simpl.
  destruct (json_Marshal_cache W (cacheMap σ)) as [b|e]; simpl;
    [|by intros [= <- <-]].
  by destruct (write_fault W (cachePath σ)) as [[e|e n]|]; simpl;
    intros [= <- <-].
Qed.

End Frames.

(** X7.  [readCache] touches neither the files nor [cachePath] nor the
    network, never ends the process, and panics in one case only: when reading
    the file fails with an error other than the file's absence; it then
    panics with that error and leaves the cache as it was. *)
Theorem readCache_fails_only_on_read_error (W : World) (σ : Proc) :
  (∀ o σ',
     readCache W σ = (o, σ') →
     files σ' = files σ ∧ cachePath σ' = cachePath σ
     ∧ requests σ' = requests σ
     ∧ (o = Return tt
        ∨ ∃ e, o = Panicked e ∧ σ' = σ
               ∧ read_fault W (cachePath σ) = Some e
               ∧ errors_Is_ErrNotExist e = false))
  ∧ (∀ e,
       read_fault W (cachePath σ) = Some e →
       errors_Is_ErrNotExist e = false →
       readCache W σ = (Panicked e, σ)).
Proof.
  split.
  - intros o σ'. apply readCache_effects.
  - intros e. apply readCache_read_error.
Qed.

(** X8.  The first run: with no cache file, and a decoder that rejects the
    empty input and leaves its target as it was, [readCache] returns normally
    and the process is unchanged, its cache still empty. *)
Theorem readCache_first_run (W : World) (σ : Proc) (e : error) :
  read_fault W (cachePath σ) = None →
  files σ !! cachePath σ = None →
  json_Unmarshal_cache W [] (cacheMap σ) = (cacheMap σ, Some e) →
  readCache W σ = (Return tt, σ).
Proof.
  intros Hfault Hfile Hjson. rewrite readCache_missing by done.
  rewrite Hjson. by destruct σ.
Qed.

Lemma readCache_first_run_sample :
  readCache World_glove80 (Proc_sample ∅ ∅) = (Return tt, Proc_sample ∅ ∅).
Proof.
  apply (readCache_first_run World_glove80 (Proc_sample ∅ ∅) syntaxError);
    reflexivity.
Defined.

(** X9.  [writeCache] never changes the cache, [cachePath] or the requests,
    and touches no file but the one at [cachePath].  It panics exactly when
    the cache cannot be encoded, and then changes nothing; a write that fails
    is not an error of the run. *)
Theorem writeCache_swallows_write_errors (W : World) (σ : Proc) :
  (∀ o σ',
     writeCache W σ = (o, σ') →
     cache σ' = cache σ ∧ cachePath σ' = cachePath σ
     ∧ requests σ' = requests σ
     ∧ (∀ p, p ≠ cachePath σ → files σ' !! p = files σ !! p)
     ∧ match json_Marshal_cache W (cacheMap σ) with
       | inl b => o = Return tt
       | inr e => o = Panicked e ∧ σ' = σ
       end)
  ∧ (∀ b f,
       json_Marshal_cache W (cacheMap σ) = inl b →
       write_fault W (cachePath σ) = Some f →
       ∃ σ', writeCache W σ = (Return tt, σ') ∧ cache σ' = cache σ).
Proof.
  split.
  - intros o σ'. apply writeCache_effects.
  - intros b f. apply writeCache_write_error.
Qed.

(** X10.  One resolution never touches the files or [cachePath], never ends
    the process and never removes or replaces a cached record.  When it
    returns, the record returned is in the cache under the identifier and the
    cache holds no other new identifier; when it panics, the cache is as it
    was. *)
Theorem getLayout_frame (W : World) (σ σ' : Proc) (uid : string)
    (o : Outcome Layout) :
  getLayout W uid σ = (o, σ') →
  files σ' = files σ ∧ cachePath σ' = cachePath σ
  ∧ cache σ ⊆ cache σ'
  ∧ match o with
    | Return l =>
        cache σ' !! uid = Some l ∧ dom (cache σ') = dom (cache σ) ∪ {[uid]}
    | Panicked _ => cache σ' = cache σ
    | Exited _ => False
    end.
Proof. apply getLayout_effects. Qed.

Lemma getLayout_frame_sample :
  files (getLayout World_glove80 "id2" (Proc_sample cache_sample ∅)).2 = ∅
  ∧ cachePath (getLayout World_glove80 "id2" (Proc_sample cache_sample ∅)).2
    = cachePath_sample
  ∧ cache_sample
    ⊆ cache (getLayout World_glove80 "id2" (Proc_sample cache_sample ∅)).2
  ∧ match (getLayout World_glove80 "id2" (Proc_sample cache_sample ∅)).1 with
    | Return l =>
        cache (getLayout World_glove80 "id2" (Proc_sample cache_sample ∅)).2
          !! "id2" = Some l
        ∧ dom (cache (getLayout World_glove80 "id2"
                        (Proc_sample cache_sample ∅)).2)
          = dom cache_sample ∪ {["id2"]}
    | Panicked _ =>
        cache (getLayout World_glove80 "id2" (Proc_sample cache_sample ∅)).2
        = cache_sample
    | Exited _ => False
    end.
Proof.
  apply (getLayout_frame World_glove80 (Proc_sample cache_sample ∅)).
  by destruct (getLayout World_glove80 "id2" (Proc_sample cache_sample ∅)).
Defined.

(** X11.  On a miss a transport error is fatal and stores nothing: when the
    request fails, or when reading the body of the response fails, the
    resolution panics with that error, after the one request, and the cache is
    as it was. *)
Theorem getLayout_transport_error_fatal (W : World) (σ : Proc) (uid : string)
    (u : URL) (path : string) (e : error) :
  cache σ !! uid = None →
  url_Parse W baseURL = inl u →
  url_JoinPath W (Path u) [uid; "meta"] = inl path →
  (∃ resp,
     http_Get W (requests σ) (layoutURL_of W u path) = (resp, Some e))
  ∨ (∃ resp body,
       http_Get W (requests σ) (layoutURL_of W u path) = (Some resp, None)
       ∧ Body resp = (body, Some e)) →
  getLayout W uid σ = (Panicked e, add_request (layoutURL_of W u path) σ)
  ∧ cache (add_request (layoutURL_of W u path) σ) = cache σ.
Proof.
  intros Hmiss Hu Hpath [[resp Hget]|(resp & body & Hget & Hbody)];
    (split; [|done]).
  - by eapply getLayout_transport_error.
  - by eapply getLayout_read_error.
Qed.

Lemma getLayout_transport_error_fatal_sample :
  getLayout World_offline "id1" (Proc_sample ∅ ∅)
  = (Panicked (ErrOther "dial tcp: connection refused"),
     add_request "https://my.glove80.com/api/layouts/v1/id1/meta"
       (Proc_sample ∅ ∅))
  ∧ cache (add_request "https://my.glove80.com/api/layouts/v1/id1/meta"
             (Proc_sample ∅ ∅)) = ∅.
Proof.
  apply (getLayout_transport_error_fatal World_offline (Proc_sample ∅ ∅) "id1"
           {| Origin := "https://my.glove80.com"; Path := "/api/layouts/v1/";
              RawQuery := "" |}
           "/api/layouts/v1/id1/meta");
    [reflexivity..|].
  left. by exists None.
Defined.

(** X12.  With every identifier of the window in the cache, the loop of
    [main] makes no request and changes nothing: it runs the Deduplicator's
    step on the records the cache holds for the identifiers, in order. *)
Theorem loop_cached (W : World) (redupe : bool) (uids : list string)
    (acc : gset string * list (list string)) (σ : Proc) :
  (∀ uid, uid ∈ uids → is_Some (cache σ !! uid)) →
  ∃ layouts,
    Forall2 (fun uid l => cache σ !! uid = Some l) uids layouts
    ∧ loop W redupe uids acc σ
      = (Return (foldl (fun acc layout => visit (AsRow W) redupe layout acc)
                   acc layouts), σ).
Proof.
  intros Hcached.
  destruct (resolveAll_hits W uids σ Hcached) as (layouts & Hres & Hall).
  exists layouts. split; [done|].
  rewrite loop_resolveAll. unfold bind. by rewrite Hres.
Qed.

Lemma loop_cached_sample :
  ∃ layouts,
    Forall2 (fun uid l => cache_sample !! uid = Some l) ["id1"; "id1"] layouts
    ∧ loop World_offline false ["id1"; "id1"] (∅, [])
        (Proc_sample cache_sample ∅)
      = (Return (foldl (fun acc layout =>
                          visit (AsRow World_offline) false layout acc)
                   (∅, []) layouts),
         Proc_sample cache_sample ∅).
Proof.
  apply (loop_cached World_offline false ["id1"; "id1"] (∅, [])
           (Proc_sample cache_sample ∅)).
  intros uid Huid. exists (Layout_of "id1" "Foo" "Alice").
  apply elem_of_cons in Huid as [->|Huid]; [reflexivity|].
  apply elem_of_cons in Huid as [->|Huid]; [reflexivity|].
  by apply elem_of_nil in Huid.
Defined.

(** X13.  A run of the loop of [main] that returns has requested each
    identifier of the window that was not in the cache exactly once, however
    often it occurs in the window, and nothing else; afterwards every
    identifier of the window is in the cache with the record the loop used
    for it, no cached record has been removed or replaced, and the cache
    holds exactly the identifiers it held before and those of the window. *)
Theorem loop_fetches_once (W : World) (redupe : bool) (uids : list string)
    (acc acc' : gset string * list (list string)) (σ σ' : Proc) :
  loop W redupe uids acc σ = (Return acc', σ') →
  (∃ layouts,
     Forall2 (fun uid l => cache σ' !! uid = Some l) uids layouts
     ∧ acc' = foldl (fun acc layout => visit (AsRow W) redupe layout acc)
                acc layouts)
  ∧ cache σ ⊆ cache σ'
  ∧ dom (cache σ') = dom (cache σ) ∪ list_to_set uids
  ∧ ∃ new,
      requests σ' = requests σ ++ new
      ∧ length new = size (list_to_set uids ∖ dom (cache σ) : gset string).
Proof.
  rewrite loop_resolveAll. unfold bind, ret.
  destruct (resolveAll W uids σ) as [[layouts|e|c] σ1] eqn:Hres; [|done..].
  intros [= <- <-].
  destruct (resolveAll_effects W uids σ σ1 layouts Hres)
    as (Hall & Hdom & Hreq).
  destruct (resolveAll_frame W uids σ σ1 _ Hres) as (_ & _ & Hsub & _).
  split_and!; [by exists layouts|done..].
Qed.

Lemma loop_fetches_once_sample :
  (∃ layouts,
     Forall2
       (fun uid l =>
          (<["id3" := Layout_of "id3" "Bar" "Bob"]> cache_sample
             : gmap string Layout) !! uid = Some l)
       ["id1"; "id3"; "id1"; "id3"] layouts
     ∧ ({["Foo-Alice"; "Bar-Bob"]} : gset string,
        [["1/1/70"; "Foo"; ""; "Alice"]; ["1/1/70"; "Bar"; ""; "Bob"]])
       = foldl (fun acc layout =>
                  visit (AsRow World_glove80) false layout acc)
           (∅, []) layouts)
  ∧ cache_sample ⊆ <["id3" := Layout_of "id3" "Bar" "Bob"]> cache_sample
  ∧ dom (<["id3" := Layout_of "id3" "Bar" "Bob"]> cache_sample)
    = dom cache_sample ∪ list_to_set ["id1"; "id3"; "id1"; "id3"]
  ∧ ∃ new,
      ["https://my.glove80.com/api/layouts/v1/id3/meta"] = [] ++ new
      ∧ length new
        = size (list_to_set ["id1"; "id3"; "id1"; "id3"] ∖ dom cache_sample
                : gset string).
Proof.
  refine (loop_fetches_once World_glove80 false ["id1"; "id3"; "id1"; "id3"]
            (∅, [])
            ({["Foo-Alice"; "Bar-Bob"]},
             [["1/1/70"; "Foo"; ""; "Alice"]; ["1/1/70"; "Bar"; ""; "Bob"]])
            (Proc_sample cache_sample ∅)
            {| cacheMap := Map (<["id3" := Layout_of "id3" "Bar" "Bob"]> cache_sample);
               cachePath := cachePath_sample; files := ∅;
               requests :=
                 ["https://my.glove80.com/api/layouts/v1/id3/meta"] |} _).
  vm_compute. reflexivity.
Defined.

(** ** The run of [main] *)

Section Main.

Variable W : World.
Implicit Types (σ : Proc) (args : list string) (limit offset : Z).

(** [main] is the preamble, [readCache], and [shown] under the deferred
    [writeCache]. *)
Lemma main_shown args debug redupe limit offset σ :
  main W args debug redupe limit offset σ
  = (let* p := must (xdg_CacheFile W cacheFileName) in
     do modify (set_cachePath p) in
     if bool_decide (1 < length args)%nat then log_Fatalf
     else
       do readCache W in
       defer (writeCache W) (shown W args redupe limit offset)) σ.
Proof.
  unfold main, shown, search, bind, defer, must, modify.
  destruct (xdg_CacheFile W cacheFileName) as [p|e]; simpl; [|done].
  case_bool_decide; [done|].
  destruct (readCache W (set_cachePath p σ)) as [[[]|e|c] σ0]; [|done..].
  destruct (url_Parse W baseURL) as [u|e]; simpl; [|done].
  unfold http_Get_. simpl.
  destruct (http_Get W (requests σ0) _) as [resp err]. simpl.
  destruct (io_ReadAll_must resp _) as [[uidBytes|e|c] σ1]; [|done..].
  destruct (json_Unmarshal_uids W uidBytes _) as [uids [e|]]; simpl;
    [done|].
  by destruct (window uids offset limit).
Qed.

(** The table shown holds the rows of the records the Deduplicator lets
    through, out of the records resolved for the window. *)
Lemma shown_resolveAll args redupe limit offset σ :
  shown W args redupe limit offset σ
  = (let* uids := search W args in
     match window uids offset limit with
     | None => panic sliceOutOfRange
     | Some selected =>
         let* layouts := resolveAll W selected in
         ret {| Header := ["Date"; "Title"; "Notes"; "Author"];
                Rows := AsRow W <$> Filter layouts redupe |}
     end) σ.
Proof.
  unfold shown, bind.
  destruct (search W args σ) as [[uids|e|c] σ1]; [|done..].
  destruct (window uids offset limit) as [selected|]; [|done].
  rewrite loop_Filter. unfold bind, ret.
  by destruct (resolveAll W selected σ1) as [[layouts|e|c] σ2].
Qed.

(** The search makes at most one request and changes nothing else. *)
Lemma search_effects args σ σ' (o : Outcome (slice string)) :
  search W args σ = (o, σ') →
  cache σ' = cache σ ∧ files σ' = files σ ∧ cachePath σ' = cachePath σ
  ∧ (∀ c, o ≠ Exited c).
Proof.
  unfold search, io_ReadAll_must, Body_of, bind, must, http_Get_. simpl.
  destruct (url_Parse W baseURL) as [u|e]; simpl; [|by intros [= <- <-]].
  destruct (http_Get W (requests σ) _) as [[resp|] err]; simpl;
    [|by intros [= <- <-]].
  destruct (Body resp) as [body [e|]]; simpl; [by intros [= <- <-]|].
  destruct (json_Unmarshal_uids W body _) as [uids [e|]]; simpl;
    by intros [= <- <-].
Qed.

Lemma shown_effects args redupe limit offset σ σ' (o : Outcome Table) :
  shown W args redupe limit offset σ = (o, σ') →
  files σ' = files σ ∧ cachePath σ' = cachePath σ ∧ cache σ ⊆ cache σ'
  ∧ (∀ c, o ≠ Exited c).
Proof.
  rewrite shown_resolveAll. unfold bind.
  destruct (search W args σ) as [[uids|e|c] σ1] eqn:Hsearch;
    destruct (search_effects _ _ _ _ Hsearch) as (Hc & Hf & Hp & Hx);
    [| |by destruct (Hx c)].
  - destruct (window uids offset limit) as [selected|].
    + destruct (resolveAll W selected σ1) as [[layouts|e|c] σ2] eqn:Hres;
        destruct (resolveAll_frame W _ _ _ _ Hres) as (Hf' & Hp' & Hc' & Hx');
        [| |by destruct (Hx' c)].
      all: intros [= <- <-]; split_and!; try congruence.
      all: by rewrite <- Hc.
    + intros [= <- <-]. split_and!; try done. by rewrite Hc.
  - intros [= <- <-]. split_and!; try done. by rewrite Hc.
Qed.

(** A run that gets as far as reading the cache: its outcome is the outcome of
    [shown], unless encoding the cache fails at the end. *)
Lemma main_past_readCache args debug redupe limit offset σ σ0 p :
  xdg_CacheFile W cacheFileName = inl p →
  (length args ≤ 1)%nat →
  readCache W (set_cachePath p σ) = (Return tt, σ0) →
  main W args debug redupe limit offset σ
  = defer (writeCache W) (shown W args redupe limit offset) σ0.
Proof.
  intros Hxdg Hargs Hread. rewrite main_shown.
  unfold bind, must, modify. rewrite Hxdg. simpl.
  rewrite bool_decide_eq_false_2 by lia. by rewrite Hread.
Qed.

End Main.

(** X14.  [main] stops before it reads, requests or writes anything when no
    cache location is found (a panic with the error, the process untouched)
    and when more than one positional argument is given (exit status 1, only
    [cachePath] set). *)
Theorem main_stops_before_any_effect (W : World) (args : list string)
    (debug redupe : bool) (limit offset : Z) (σ : Proc) :
  (∀ e,
     xdg_CacheFile W cacheFileName = inr e →
     main W args debug redupe limit offset σ = (Panicked e, σ))
  ∧ (∀ p,
       xdg_CacheFile W cacheFileName = inl p →
       (1 < length args)%nat →
       main W args debug redupe limit offset σ
       = (Exited 1, set_cachePath p σ)).
Proof.
  split.
  - intros e Hxdg. rewrite main_shown. unfold bind, must. by rewrite Hxdg.
  - intros p Hxdg Hargs. rewrite main_shown. unfold bind, must, modify.
    rewrite Hxdg. simpl. by rewrite bool_decide_eq_true_2.
Qed.

(** X15.  The deferred [writeCache] saves the cache whether the run returns or
    panics: once [readCache] has returned, the outcome of [main] is the
    outcome of the search, the window and the loop, and, when the final cache
    is encoded and the write meets no fault, the file at [cachePath] holds the
    encoding of the final cache, every record fetched before a panic
    included. *)
Theorem main_saves_cache_also_on_panic (W : World) (args : list string)
    (debug redupe : bool) (limit offset : Z) (σ σ0 σ' : Proc)
    (o : Outcome Table) (p : string) (b : bytes) :
  xdg_CacheFile W cacheFileName = inl p →
  (length args ≤ 1)%nat →
  readCache W (set_cachePath p σ) = (Return tt, σ0) →
  main W args debug redupe limit offset σ = (o, σ') →
  json_Marshal_cache W (cacheMap σ') = inl b →
  write_fault W p = None →
  ∃ σ1,
    shown W args redupe limit offset σ0 = (o, σ1)
    ∧ cache σ' = cache σ1
    ∧ cache σ0 ⊆ cache σ'
    ∧ files σ' = <[p := b]> (files σ0).
Proof.
  intros Hxdg Hargs Hread Hmain Hb Hfault.
  rewrite (main_past_readCache W args debug redupe limit offset σ σ0 p)
    in Hmain by done.
  destruct (readCache_effects W _ _ _ Hread) as (_ & Hp0 & _).
  unfold defer in Hmain.
  destruct (shown W args redupe limit offset σ0) as [r σ1] eqn:Hshown.
  destruct (shown_effects W _ _ _ _ _ _ _ Hshown) as (Hf1 & Hp1 & Hsub & Hx).
  assert (Hp : cachePath σ1 = p) by (by rewrite Hp1, Hp0).
  destruct (writeCache W σ1) as [ow σ2] eqn:Hwrite.
  destruct (writeCache_effects W _ _ _ Hwrite) as (Hc2 & _).
  pose proof (writeCache_cacheMap W _ _ _ Hwrite) as Hm2.
  assert (Hσ' : σ' = σ2).
  { destruct r as [t|e|c]; [| |by destruct (Hx c)];
      destruct ow; by injection Hmain. }
  subst σ'. rewrite Hm2 in Hb.
  rewrite (writeCache_written W σ1 b Hb) in Hwrite by (by rewrite Hp).
  injection Hwrite as <- <-.
  exists σ1. split_and!; [|done|done|by rewrite Hp, Hf1].
  destruct r as [t|e|c]; [| |by destruct (Hx c)]; by injection Hmain as <-.
Qed.

Lemma main_saves_cache_also_on_panic_sample :
  ∃ σ1,
    shown World_flaky [] false 3 0 (Proc_sample ∅ ∅)
    = (Panicked (ErrOther "read tcp: connection reset by peer"), σ1)
    ∧ cache (main World_flaky [] false false 3 0 (Proc_init ∅ [])).2
      = cache σ1
    ∧ ∅ ⊆ cache (main World_flaky [] false false 3 0 (Proc_init ∅ [])).2
    ∧ files (main World_flaky [] false false 3 0 (Proc_init ∅ [])).2
      = <[cachePath_sample := text "{id1,id2}"]> ∅.
Proof.
  refine (main_saves_cache_also_on_panic World_flaky [] false false 3 0
            (Proc_init ∅ []) (Proc_sample ∅ ∅)
            (main World_flaky [] false false 3 0 (Proc_init ∅ [])).2
            (Panicked (ErrOther "read tcp: connection reset by peer"))
            cachePath_sample (text "{id1,id2}") _ _ _ _ _ _).
  - reflexivity.
  - simpl. lia.
  - vm_compute. reflexivity.
  - vm_compute. reflexivity.
  - vm_compute. reflexivity.
  - reflexivity.
Defined.

(** X16.  The [redupe] flag changes the rows shown and nothing else: a run
    with the flag that returns, returns without it as well, from the same
    start, in the same final state (same requests, same cache, same cache
    file), and its rows are a subsequence of the rows shown with the flag. *)
Theorem main_redupe_changes_only_the_rows (W : World) (args : list string)
    (debug : bool) (limit offset : Z) (σ σ' : Proc) (t : Table) :
  main W args debug true limit offset σ = (Return t, σ') →
  ∃ t',
    main W args debug false limit offset σ = (Return t', σ')
    ∧ Header t' = Header t
    ∧ sublist (Rows t') (Rows t).
Proof.
  rewrite !main_shown. unfold bind, must, modify.
  destruct (xdg_CacheFile W cacheFileName) as [p|e]; simpl; [|done].
  case_bool_decide; [done|].
  destruct (readCache W (set_cachePath p σ)) as [[[]|e|c] σ0]; [|done..].
  unfold defer. rewrite !shown_resolveAll. unfold bind.
  destruct (search W args σ0) as [[uids|e|c] σ1]; [| |done].
  - destruct (window uids offset limit) as [selected|].
    + destruct (resolveAll W selected σ1) as [[layouts|e|c] σ2]; [| |done].
      * unfold ret.
        destruct (writeCache W σ2) as [[[]|e|c] σ3]; [|done..].
        intros [= <- <-]. eexists. split_and!; [reflexivity..|]. simpl.
        apply fmap_sublist.
        rewrite (Filter_run layouts true), run_redupe, Filter_run. simpl.
        by destruct (run_filter_inv layouts ∅ []) as (new & -> & Hsub & _).
      * by destruct (writeCache W σ2) as [[[]|e'|c] σ3].
    + unfold panic. by destruct (writeCache W σ1) as [[[]|e'|c] σ3].
  - by destruct (writeCache W σ1) as [[[]|e'|c] σ3].
Qed.

Lemma main_redupe_changes_only_the_rows_sample :
  ∃ t',
    main World_glove80 [] false false 3 0 (Proc_init ∅ [])
    = (Return t', (main World_glove80 [] false true 3 0 (Proc_init ∅ [])).2)
    ∧ Header t' = ["Date"; "Title"; "Notes"; "Author"]
    ∧ sublist (Rows t')
        [["1/1/70"; "Foo"; ""; "Alice"]; ["1/1/70"; "Foo"; ""; "Alice"];
         ["1/1/70"; "Bar"; ""; "Bob"]].
Proof.
  refine (main_redupe_changes_only_the_rows World_glove80 [] false 3 0
            (Proc_init ∅ [])
            (main World_glove80 [] false true 3 0 (Proc_init ∅ [])).2
            {| Header := ["Date"; "Title"; "Notes"; "Author"];
               Rows := [["1/1/70"; "Foo"; ""; "Alice"];
                        ["1/1/70"; "Foo"; ""; "Alice"];
                        ["1/1/70"; "Bar"; ""; "Bob"]] |} _).
  vm_compute. reflexivity.
Defined.

(** X17.  The table of a run that returns: the four-column header, rows of
    four cells each, and, for flags in the range of [int], at most [limit]
    rows, exactly [limit] of them with [redupe]. *)
Theorem main_table_shape (W : World) (args : list string)
    (debug redupe : bool) (limit offset : Z) (σ σ' : Proc) (t : Table) :
  - 2 ^ 63 <= offset < 2 ^ 63 → - 2 ^ 63 <= limit < 2 ^ 63 →
  main W args debug redupe limit offset σ = (Return t, σ') →
  Header t = ["Date"; "Title"; "Notes"; "Author"]
  ∧ Forall (fun row => length row = length (Header t)) (Rows t)
  ∧ Z.of_nat (length (Rows t)) <= limit
  ∧ (redupe = true → Z.of_nat (length (Rows t)) = limit).
Proof.
  intros Hoff Hlim Hmain.
  destruct (main_rows W _ _ _ _ _ _ _ _ Hmain)
    as (uids & selected & layouts & σ1 & σ2 & Hwin & Hres & Hhead & Hrows).
  destruct (window_Some_inv uids offset limit selected Hoff Hlim Hwin)
    as (_ & _ & _ & Hlen).
  destruct (resolveAll_effects W _ _ _ _ Hres) as (Hall & _).
  apply Forall2_length in Hall.
  rewrite Hhead, Hrows. split_and!.
  - done.
  - apply Forall_fmap, Forall_forall. by intros l _.
  - rewrite length_fmap, Filter_run.
    destruct redupe.
    + rewrite run_redupe. simpl. lia.
    + destruct (run_filter_inv layouts ∅ []) as (new & -> & Hsub & _).
      apply sublist_length in Hsub. simpl. lia.
  - intros ->. rewrite length_fmap, Filter_run, run_redupe. simpl. lia.
Qed.

Lemma main_table_shape_sample :
  Header (mkTable ["Date"; "Title"; "Notes"; "Author"]
            [["1/1/70"; "Foo"; ""; "Alice"]; ["1/1/70"; "Bar"; ""; "Bob"]])
  = ["Date"; "Title"; "Notes"; "Author"]
  ∧ Forall (fun row => length row = 4%nat)
      [["1/1/70"; "Foo"; ""; "Alice"]; ["1/1/70"; "Bar"; ""; "Bob"]]
  ∧ Z.of_nat 2 <= 3
  ∧ (false = true → Z.of_nat 2 = 3).
Proof.
  refine (main_table_shape World_glove80 [] false false 3 0 (Proc_init ∅ [])
            (main World_glove80 [] false false 3 0 (Proc_init ∅ [])).2
            (mkTable ["Date"; "Title"; "Notes"; "Author"]
               [["1/1/70"; "Foo"; ""; "Alice"]; ["1/1/70"; "Bar"; ""; "Bob"]])
            _ _ _).
  - lia.
  - lia.
  - vm_compute. reflexivity.
Defined.

(** X18.  The error of the search request is not looked at: when the request
    fails and hands back no response, the run panics on the nil response with
    a nil-pointer error, not with the error of the request (as long as the
    cache can be encoded by the deferred [writeCache]). *)
Theorem main_search_error_is_nil_dereference (W : World) (args : list string)
    (debug redupe : bool) (limit offset : Z) (σ σ0 : Proc) (p : string)
    (u : URL) (err : option error) (b : bytes) :
  xdg_CacheFile W cacheFileName = inl p →
  (length args ≤ 1)%nat →
  readCache W (set_cachePath p σ) = (Return tt, σ0) →
  url_Parse W baseURL = inl u →
  http_Get W (requests σ0) (searchURL_of W args u) = (None, err) →
  json_Marshal_cache W (cacheMap σ0) = inl b →
  (main W args debug redupe limit offset σ).1 = Panicked nilDereference.
Proof.
  intros Hxdg Hargs Hread Hu Hget Hb.
  rewrite (main_past_readCache W args debug redupe limit offset σ σ0 p)
    by done.
  unfold defer, shown, search, io_ReadAll_must, Body_of, bind, must,
    http_Get_, searchURL_of in *.
  rewrite Hu. simpl. rewrite Hget. simpl.
  destruct (writeCache W (add_request _ σ0)) as [ow σ2] eqn:Hwrite.
  destruct (writeCache_effects W _ _ _ Hwrite) as (_ & _ & _ & _ & Ho).
  simpl in Ho. rewrite Hb in Ho. by subst ow.
Qed.

Lemma main_search_error_is_nil_dereference_sample :
  (main World_offline [] false false 10 0 (Proc_init ∅ [])).1
  = Panicked nilDereference.
Proof.
  refine (main_search_error_is_nil_dereference World_offline [] false false
            10 0 (Proc_init ∅ []) (Proc_sample ∅ ∅) cachePath_sample
            {| Origin := "https://my.glove80.com"; Path := "/api/layouts/v1/";
               RawQuery := "" |}
            (Some (ErrOther "dial tcp: connection refused")) (text "{}")
            _ _ _ _ _ _).
  - reflexivity.
  - simpl. lia.
  - vm_compute. reflexivity.
  - reflexivity.
  - reflexivity.
  - vm_compute. reflexivity.
Defined.

(** ** Two runs *)

Section TwoRuns.

Variable W : World.

(** With a server whose answers do not depend on the requests made before,
    a search that returns gives the same list from any state. *)
Lemma search_stable (args : list string) (σ σs : Proc) (uids : slice string) :
  (∀ h h' url, http_Get W h url = http_Get W h' url) →
  search W args σ = (Return uids, σs) →
  ∃ url, ∀ τ, search W args τ = (Return uids, add_request url τ).
Proof.
  intros Hstable.
  unfold search, io_ReadAll_must, Body_of, bind, must, http_Get_. simpl.
  destruct (url_Parse W baseURL) as [u|e]; simpl; [|done].
  destruct (http_Get W (requests σ) _) as [[resp|] err] eqn:Hget; simpl;
    [|done].
  destruct (Body resp) as [body [e|]] eqn:Hbody; simpl; [done|].
  destruct (json_Unmarshal_uids W body _) as [uids' [e|]] eqn:Hjson; simpl;
    [done|].
  intros [= <- <-]. eexists. intros τ.
  rewrite (Hstable (requests τ) (requests σ)), Hget. simpl.
  rewrite Hbody. simpl. by rewrite Hjson.
Qed.

Lemma lookups_unique (m : gmap string Layout) (uids : list string)
    (l1 l2 : list Layout) :
  Forall2 (fun uid l => m !! uid = Some l) uids l1 →
  Forall2 (fun uid l => m !! uid = Some l) uids l2 →
  l1 = l2.
Proof.
  intros H1. revert l2. induction H1 as [|uid l uids l1 Hl _ IH];
    intros l2 H2; inversion H2; subst; [done|].
  f_equal; [congruence|by apply IH].
Qed.

End TwoRuns.

(** X19.  What the cache is for.  After a run that returns and saves its
    cache, a second run with the same arguments, in a fresh process on the
    files the first run left, shows the same table and makes one request
    only, the search: every layout comes from the cache file.  This holds
    when the answers of the server do not depend on earlier requests, the
    decoder gives back from the saved bytes the cache that was encoded, and
    the cache file is written and read without fault. *)
Theorem main_second_run_uses_cache (W : World) (args : list string)
    (debug redupe : bool) (limit offset : Z) (σ σ1 : Proc) (t : Table)
    (p : string) (b : bytes) :
  xdg_CacheFile W cacheFileName = inl p →
  (∀ h h' url, http_Get W h url = http_Get W h' url) →
  main W args debug redupe limit offset σ = (Return t, σ1) →
  json_Marshal_cache W (cacheMap σ1) = inl b →
  (json_Unmarshal_cache W b (Map ∅)).1 = cacheMap σ1 →
  write_fault W p = None →
  read_fault W p = None →
  ∃ σ2 url,
    main W args debug redupe limit offset
      (Proc_init (files σ1) (requests σ1))
    = (Return t, σ2)
    ∧ requests σ2 = requests σ1 ++ [url]
    ∧ cache σ2 = cache σ1
    ∧ files σ2 = files σ1.
Proof.
  intros Hxdg Hstable Hrun Hb Hcodec Hwrite Hread.
  (* the first run, taken apart *)
  assert (Hargs : (length args ≤ 1)%nat).
  { destruct (decide (1 < length args)%nat) as [Hlt|]; [|lia].
    revert Hrun. rewrite main_shown. unfold bind, must, modify.
    rewrite Hxdg. simpl. by rewrite bool_decide_eq_true_2. }
  destruct (readCache W (set_cachePath p σ)) as [or σ0] eqn:Hread0.
  assert (Hor : or = Return tt).
  { revert Hrun. rewrite main_shown. unfold bind, must, modify.
    rewrite Hxdg. simpl. rewrite bool_decide_eq_false_2 by lia.
    rewrite Hread0. by destruct or as [[]|e|c]. }
  subst or.
  rewrite (main_past_readCache W args debug redupe limit offset σ σ0 p)
    in Hrun by done.
  destruct (readCache_effects W _ _ _ Hread0) as (_ & Hp0 & _).
  unfold defer in Hrun.
  destruct (shown W args redupe limit offset σ0) as [r σa] eqn:Hshown.
  destruct (shown_effects W _ _ _ _ _ _ _ Hshown) as (_ & Hpa & _ & Hx).
  destruct (writeCache W σa) as [ow σw] eqn:Hw.
  pose proof (writeCache_cacheMap W _ _ _ Hw) as Hcw.
  assert (Hr : r = Return t ∧ σw = σ1).
  { destruct r as [t'|e|c]; [| |by destruct (Hx c)]; destruct ow;
      by simplify_eq/=. }
  destruct Hr as [-> ->]. clear Hrun.
  rewrite Hcw in Hb, Hcodec.
  assert (Hpath : cachePath σa = p) by (by rewrite Hpa, Hp0).
  rewrite (writeCache_written W σa b Hb) in Hw by (by rewrite Hpath).
  injection Hw as _ <-. simpl in *. rewrite Hpath.
  rewrite shown_resolveAll in Hshown. unfold bind in Hshown.
  destruct (search W args σ0) as [[uids|e|c] σs] eqn:Hsearch; [|done..].
  destruct (window uids offset limit) as [selected|] eqn:Hwin; [|done].
  destruct (resolveAll W selected σs) as [[layouts|e|c] σr] eqn:Hres;
    [|done..].
  injection Hshown as <- <-.
  destruct (resolveAll_effects W _ _ _ _ Hres) as (Hall & _).
  destruct (search_stable W args σ0 σs uids Hstable Hsearch) as [url Hany].
  (* the second run *)
  set (τ0 := {| cacheMap := cacheMap σr; cachePath := p;
                files := <[p := b]> (files σr);
                requests := requests σr |}).
  assert (Hread2 :
    readCache W (set_cachePath p
                   (Proc_init (<[p := b]> (files σr)) (requests σr)))
    = (Return tt, τ0)).
  { rewrite (readCache_readable W _ b); simpl;
      [|done|apply lookup_insert_eq].
    by rewrite Hcodec. }
  rewrite (main_past_readCache W args debug redupe limit offset _ τ0 p)
    by done.
  unfold defer. rewrite shown_resolveAll. unfold bind.
  rewrite Hany, Hwin.
  destruct (resolveAll_hits W selected (add_request url τ0))
    as (layouts' & Hres2 & Hall2).
  { intros uid Huid. change (cache (add_request url τ0)) with (cache σr).
    apply list_elem_of_lookup in Huid as [i Hi].
    destruct (Forall2_lookup_l _ _ _ i uid Hall Hi) as (l & _ & Hl).
    by exists l. }
  rewrite Hres2. unfold ret.
  rewrite (lookups_unique _ _ _ _ Hall2 Hall).
  rewrite (writeCache_written W (add_request url τ0) b) by done.
  exists (set_files (<[p := b]> (<[p := b]> (files σr))) (add_request url τ0)),
    url.
  split_and!; [done|done|done|]. simpl. apply insert_insert_eq.
Qed.

Lemma main_second_run_uses_cache_sample :
  ∃ σ2 url,
    main World_glove80 [] false false 1 0
      (Proc_init
         (files (main World_glove80 [] false false 1 0 (Proc_init ∅ [])).2)
         (requests (main World_glove80 [] false false 1 0 (Proc_init ∅ [])).2))
    = (Return {| Header := ["Date"; "Title"; "Notes"; "Author"];
                 Rows := [["1/1/70"; "Foo"; ""; "Alice"]] |}, σ2)
    ∧ requests σ2
      = requests (main World_glove80 [] false false 1 0 (Proc_init ∅ [])).2
        ++ [url]
    ∧ cache σ2
      = cache (main World_glove80 [] false false 1 0 (Proc_init ∅ [])).2
    ∧ files σ2
      = files (main World_glove80 [] false false 1 0 (Proc_init ∅ [])).2.
Proof.
  refine (main_second_run_uses_cache World_glove80 [] false false 1 0
            (Proc_init ∅ [])
            (main World_glove80 [] false false 1 0 (Proc_init ∅ [])).2
            {| Header := ["Date"; "Title"; "Notes"; "Author"];
               Rows := [["1/1/70"; "Foo"; ""; "Alice"]] |}
            cachePath_sample (text "{id1}") _ _ _ _ _ _ _).
  - reflexivity.
  - intros h h' url. reflexivity.
  - vm_compute. reflexivity.
  - vm_compute. reflexivity.
  - vm_compute. reflexivity.
  - reflexivity.
  - reflexivity.
Defined.

(** ** The cache over the earlier resolver *)

(** X20.  The cache changes nothing about a miss but the store: on an
    identifier that is not cached, [getLayout] requests, panics and returns
    exactly as the earlier, uncached [getLayout] does, except for the store
    where the uncached one returns: with a cache map that is not nil the
    record is put into the cache and returned, with the nil map the
    assignment panics.  On a cached identifier it does nothing where the
    uncached one would request again.  The uncached one never touches the
    cache or the files. *)
Theorem getLayout_refines_uncached (W : World) (σ : Proc) (uid : string) :
  (∀ m,
     cacheMap σ = Map m → m !! uid = None →
     getLayout W uid σ
     = match Uncached.getLayout W uid σ with
       | (Return l, σ1) => (Return l, set_cache (<[uid := l]> m) σ1)
       | (o, σ1) => (o, σ1)
       end)
  ∧ (cacheMap σ = NilMap →
     getLayout W uid σ
     = match Uncached.getLayout W uid σ with
       | (Return l, σ1) => (Panicked nilMapAssignment, σ1)
       | (o, σ1) => (o, σ1)
       end)
  ∧ (∀ l, cache σ !! uid = Some l → getLayout W uid σ = (Return l, σ))
  ∧ (∀ o σ1,
       Uncached.getLayout W uid σ = (o, σ1) →
       cacheMap σ1 = cacheMap σ ∧ cache σ1 = cache σ ∧ files σ1 = files σ).
Proof.
  split_and!.
  - intros m Hmap Hmiss.
    unfold getLayout, Uncached.getLayout, io_ReadAll_must, Body_of, bind, get,
      http_Get_, must.
    simpl. rewrite (cache_Map σ m Hmap), Hmiss.
    destruct (url_Parse W baseURL) as [u|e]; simpl; [|done].
    destruct (url_JoinPath W (Path u) [uid; "meta"]) as [path|e]; simpl;
      [|done].
    destruct (http_Get W (requests σ) _) as [resp [e|]]; simpl; [done|].
    destruct resp as [resp|]; simpl; [|done].
    destruct (Body resp) as [body [e|]]; simpl; [done|].
    by rewrite Hmap.
  - intros Hmap.
    unfold getLayout, Uncached.getLayout, io_ReadAll_must, Body_of, bind, get,
      http_Get_, must.
    simpl. rewrite (cache_NilMap σ Hmap), lookup_empty.
    destruct (url_Parse W baseURL) as [u|e]; simpl; [|done].
    destruct (url_JoinPath W (Path u) [uid; "meta"]) as [path|e]; simpl;
      [|done].
    destruct (http_Get W (requests σ) _) as [resp [e|]]; simpl; [done|].
    destruct resp as [resp|]; simpl; [|done].
    destruct (Body resp) as [body [e|]]; simpl; [done|].
    by rewrite Hmap.
  - intros l. apply getLayout_hit.
  - intros o σ1.
    unfold Uncached.getLayout, io_ReadAll_must, Body_of, bind, get,
      http_Get_, must.
    simpl.
    destruct (url_Parse W baseURL) as [u|e]; simpl; [|by intros [= <- <-]].
    destruct (url_JoinPath W (Path u) [uid; "meta"]) as [path|e]; simpl;
      [|by intros [= <- <-]].
    destruct (http_Get W (requests σ) _) as [resp [e|]]; simpl;
      [by intros [= <- <-]|].
    destruct resp as [resp|]; simpl; [|by intros [= <- <-]].
    by destruct (Body resp) as [body [e|]]; simpl; intros [= <- <-].
Qed.

(** ** The requests and the rows of a run *)

Lemma search_Return_inv (W : World) (args : list string) (σ σs : Proc)
    (uids : slice string) :
  search W args σ = (Return uids, σs) →
  ∃ url, σs = add_request url σ.
Proof.
  unfold search, io_ReadAll_must, Body_of, bind, must, http_Get_. simpl.
  destruct (url_Parse W baseURL) as [u|e]; simpl; [|done].
  destruct (http_Get W (requests σ) _) as [[resp|] err]; simpl; [|done].
  destruct (Body resp) as [body [e|]]; simpl; [done|].
  destruct (json_Unmarshal_uids W body _) as [uids' [e|]]; simpl; [done|].
  intros [= <- <-]. by eexists.
Qed.

(** A miss that returns has requested the URL of the identifier. *)
Lemma getLayout_miss_url (W : World) (σ σ' : Proc) (uid : string)
    (l : Layout) :
  cache σ !! uid = None →
  getLayout W uid σ = (Return l, σ') →
  ∃ url,
    layoutURL W uid = Some url
    ∧ σ' = set_cache (<[uid := l]> (cache σ)) (add_request url σ).
Proof.
  intros Hmiss.
  unfold getLayout, layoutURL, layoutURL_of, io_ReadAll_must, Body_of, bind,
    get, http_Get_.
  simpl. rewrite Hmiss.
  destruct (url_Parse W baseURL) as [u|e]; simpl; [|intros [=]].
  destruct (url_JoinPath W (Path u) [uid; "meta"]) as [path|e]; simpl;
    [|intros [=]].
  destruct (http_Get W (requests σ) _) as [resp [e|]]; simpl; [intros [=]|].
  destruct resp as [resp|]; simpl; [|intros [=]].
  destruct (Body resp) as [body [e|]]; simpl; [intros [=]|].
  destruct (cacheMap σ) as [|m] eqn:Hmap; simpl; intros [= <- <-].
  eexists. split; [reflexivity|]. by rewrite (cache_Map σ m Hmap).
Qed.

(** The requests of a run of the resolver that returns are the requests for
    the identifiers that were not cached, each at its first occurrence, in
    order. *)
Lemma resolveAll_requests (W : World) (uids : list string) (σ σ' : Proc)
    (layouts : list Layout) :
  resolveAll W uids σ = (Return layouts, σ') →
  ∃ new,
    requests σ' = requests σ ++ new
    ∧ Forall2 (fun uid url => layoutURL W uid = Some url)
        (to_fetch (dom (cache σ)) uids) new.
Proof.
  revert σ σ' layouts.
  induction uids as [|uid uids IH]; intros σ σ' layouts; simpl.
  - intros [= <- <-]. exists []. rewrite app_nil_r. split; [done|constructor].
  - unfold bind.
    destruct (getLayout W uid σ) as [[l|e|c] σ1] eqn:Hget; [|done..].
    destruct (resolveAll W uids σ1) as [[ls|e|c] σ2] eqn:Hres; [|done..].
    intros [= <- <-].
    destruct (IH _ _ _ Hres) as (new & Hreq & Hall).
    destruct (cache σ !! uid) as [l'|] eqn:Hlookup.
    + rewrite (getLayout_hit W σ uid l' Hlookup) in Hget.
      injection Hget as <- <-.
      rewrite bool_decide_eq_true_2 by (by apply elem_of_dom_2 in Hlookup).
      by exists new.
    + destruct (getLayout_miss_url W σ σ1 uid l Hlookup Hget)
        as (url & Hurl & ->).
      rewrite bool_decide_eq_false_2 by (by apply not_elem_of_dom).
      simpl_cache_in Hall. rewrite dom_insert_L in Hall. simpl in Hreq.
      exists (url :: new). split; [by rewrite Hreq, <- app_assoc|].
      by constructor.
Qed.

(** A search that returns has requested the search URL and nothing else. *)
Lemma search_Return_url (W : World) (args : list string) (σ σs : Proc)
    (uids : slice string) :
  search W args σ = (Return uids, σs) →
  ∃ u,
    url_Parse W baseURL = inl u
    ∧ σs = add_request (searchURL_of W args u) σ.
Proof.
  unfold search, searchURL_of, io_ReadAll_must, Body_of, bind, must,
    http_Get_.
  simpl.
  destruct (url_Parse W baseURL) as [u|e]; simpl; [|done].
  destruct (http_Get W (requests σ) _) as [[resp|] err]; simpl; [|done].
  destruct (Body resp) as [body [e|]]; simpl; [done|].
  destruct (json_Unmarshal_uids W body _) as [uids' [e|]]; simpl; [done|].
  intros [= <- <-]. by exists u.
Qed.

(** X21.  The requests of a run that returns: first the search, at the search
    URL built from the arguments; then, for the list of identifiers this
    search returned and its selection window, one request for each identifier
    of the window that the cache read from the file does not hold, at the URL
    of that identifier, in the order of first occurrence in the window;
    nothing else is requested. *)
Theorem main_requests (W : World) (args : list string) (debug redupe : bool)
    (limit offset : Z) (σ σ' : Proc) (t : Table) :
  main W args debug redupe limit offset σ = (Return t, σ') →
  ∃ p σ0 u uids selected new,
    xdg_CacheFile W cacheFileName = inl p
    ∧ readCache W (set_cachePath p σ) = (Return tt, σ0)
    ∧ url_Parse W baseURL = inl u
    ∧ search W args σ0
      = (Return uids, add_request (searchURL_of W args u) σ0)
    ∧ window uids offset limit = Some selected
    ∧ requests σ' = requests σ ++ searchURL_of W args u :: new
    ∧ Forall2 (fun uid url => layoutURL W uid = Some url)
        (to_fetch (dom (cache σ0)) selected) new
    ∧ length new
      = size (list_to_set selected ∖ dom (cache σ0) : gset string).
Proof.
  rewrite main_shown. unfold bind, must, modify.
  destruct (xdg_CacheFile W cacheFileName) as [p|e]; simpl; [|done].
  case_bool_decide; [done|].
  destruct (readCache W (set_cachePath p σ)) as [[[]|e|c] σ0] eqn:Hread;
    [|done..].
  destruct (readCache_effects W _ _ _ Hread) as (_ & _ & Hreq0 & _).
  unfold defer. rewrite shown_resolveAll. unfold bind.
  destruct (search W args σ0) as [[uids|e|c] σs] eqn:Hsearch; [| |done].
  - destruct (search_Return_url W _ _ _ _ Hsearch) as (u & Hu & ->).
    destruct (window uids offset limit) as [selected|] eqn:Hwin.
    + destruct (resolveAll W selected _) as [[layouts|e|c] σr] eqn:Hres;
        [| |done].
      * destruct (resolveAll_effects W _ _ _ _ Hres)
          as (_ & _ & new & Hreq & Hlen).
        destruct (resolveAll_requests W _ _ _ _ Hres)
          as (new' & Hreq' & Hall).
        assert (new' = new) as ->.
        { rewrite Hreq in Hreq'. by apply app_inv_head in Hreq'. }
        unfold ret.
        destruct (writeCache W σr) as [[[]|e|c] σw] eqn:Hw; [|done..].
        destruct (writeCache_effects W _ _ _ Hw) as (_ & _ & Hreqw & _).
        intros [= <- <-].
        exists p, σ0, u, uids, selected, new.
        simpl_cache_in Hall. simpl_cache_in Hlen.
        split_and!; [done..| |done|done].
        rewrite Hreqw, Hreq. simpl in *. rewrite Hreq0.
        by rewrite <- app_assoc.
      * by destruct (writeCache W σr) as [[[]|e'|c] σw].
    + unfold panic. by destruct (writeCache W _) as [[[]|e'|c] σw].
  - by destruct (writeCache W σs) as [[[]|e'|c] σw].
Qed.

Lemma main_requests_sample :
  ∃ p σ0 u uids selected new,
    xdg_CacheFile World_glove80 cacheFileName = inl p
    ∧ readCache World_glove80
        (set_cachePath p
           (Proc_init {[ cachePath_sample := text "{id1}" ]} []))
      = (Return tt, σ0)
    ∧ url_Parse World_glove80 baseURL = inl u
    ∧ search World_glove80 [] σ0
      = (Return uids, add_request (searchURL_of World_glove80 [] u) σ0)
    ∧ window uids 0 3 = Some selected
    ∧ requests
        (main World_glove80 [] false false 3 0
           (Proc_init {[ cachePath_sample := text "{id1}" ]} [])).2
      = [] ++ searchURL_of World_glove80 [] u :: new
    ∧ Forall2 (fun uid url => layoutURL World_glove80 uid = Some url)
        (to_fetch (dom (cache σ0)) selected) new
    ∧ length new = size (list_to_set selected ∖ dom (cache σ0) : gset string).
Proof.
  refine (main_requests World_glove80 [] false false 3 0
            (Proc_init {[ cachePath_sample := text "{id1}" ]} [])
            (main World_glove80 [] false false 3 0
               (Proc_init {[ cachePath_sample := text "{id1}" ]} [])).2
            {| Header := ["Date"; "Title"; "Notes"; "Author"];
               Rows := [["1/1/70"; "Foo"; ""; "Alice"];
                        ["1/1/70"; "Bar"; ""; "Bob"]] |} _).
  vm_compute. reflexivity.
Defined.

(** X22.  Without [redupe] the table of a run that returns shows no title
    and author twice: two rows with the same title (second cell) and the same
    author (fourth cell) are the same row of the table; in particular no row
    is repeated. *)
Theorem main_rows_distinct (W : World) (args : list string) (debug : bool)
    (limit offset : Z) (σ σ' : Proc) (t : Table) :
  main W args debug false limit offset σ = (Return t, σ') →
  (∀ i j row1 row2,
     Rows t !! i = Some row1 → Rows t !! j = Some row2 →
     row1 !! 1%nat = row2 !! 1%nat → row1 !! 3%nat = row2 !! 3%nat →
     i = j)
  ∧ NoDup (Rows t).
Proof.
  intros Hmain.
  destruct (main_rows W _ _ _ _ _ _ _ _ Hmain)
    as (uids & selected & layouts & σ1 & σ2 & _ & _ & _ & Hrows).
  assert (Hnd : NoDup (SemanticHash <$> Filter layouts false)).
  { rewrite Filter_run.
    by destruct (run_filter_inv layouts ∅ []) as (new & -> & _ & Hnd & _). }
  assert (Hcells : ∀ i j row1 row2,
    Rows t !! i = Some row1 → Rows t !! j = Some row2 →
    row1 !! 1%nat = row2 !! 1%nat → row1 !! 3%nat = row2 !! 3%nat → i = j).
  { intros i j row1 row2. rewrite Hrows, !list_lookup_fmap.
    destruct (Filter layouts false !! i) as [l1|] eqn:Hi; [|done].
    destruct (Filter layouts false !! j) as [l2|] eqn:Hj; [|done].
    intros [= <-] [= <-] [= Htitle] [= Hcreator].
    apply (NoDup_lookup _ i j (SemanticHash l1) Hnd).
    - by rewrite list_lookup_fmap, Hi.
    - rewrite list_lookup_fmap, Hj. simpl. unfold SemanticHash.
      by rewrite Htitle, Hcreator. }
  split; [exact Hcells|].
  apply NoDup_alt. intros i j row Hi Hj. by eapply Hcells.
Qed.

Lemma main_rows_distinct_sample :
  (∀ i j row1 row2,
     [["1/1/70"; "Foo"; ""; "Alice"]; ["1/1/70"; "Bar"; ""; "Bob"]] !! i
     = Some row1 →
     [["1/1/70"; "Foo"; ""; "Alice"]; ["1/1/70"; "Bar"; ""; "Bob"]] !! j
     = Some row2 →
     row1 !! 1%nat = row2 !! 1%nat → row1 !! 3%nat = row2 !! 3%nat →
     i = j)
  ∧ NoDup [["1/1/70"; "Foo"; ""; "Alice"]; ["1/1/70"; "Bar"; ""; "Bob"]].
Proof.
  refine (main_rows_distinct World_glove80 [] false 3 0 (Proc_init ∅ [])
            (main World_glove80 [] false false 3 0 (Proc_init ∅ [])).2
            {| Header := ["Date"; "Title"; "Notes"; "Author"];
               Rows := [["1/1/70"; "Foo"; ""; "Alice"];
                        ["1/1/70"; "Bar"; ""; "Bob"]] |} _).
  vm_compute. reflexivity.
Defined.

(** ** A cache file holding [null] *)

(** The decoder sets the cache map to nil; the first layout that is not
    cached is requested and the store panics; the deferred [writeCache]
    writes [null] again. *)
Example main_sample_null_cache_file :
  main World_glove80 [] false false 1 0
    (Proc_init {[ cachePath_sample := text "null" ]} [])
  = (Panicked nilMapAssignment,
     {| cacheMap := NilMap; cachePath := cachePath_sample;
        files := {[ cachePath_sample := text "null" ]};
        requests := ["https://my.glove80.com/api/layouts/v1/";
                     "https://my.glove80.com/api/layouts/v1/id1/meta"] |}).
Proof. vm_compute. reflexivity. Qed.
